(** * Flexagonator: a shallow embedding of the flex engine and its facade

    The development follows the TypeScript sources:
    - [addAndConsolidate] (history consolidation of redundant rotates),
    - [FlexagonManager] (current flexagon, flex set, history),
    - [namePiecesToScript] (from the pieces of a name to a script),
    and models, from the written specification, the collaborators whose
    implementation is not part of the source tree (pats, flexes, tracker,
    atomic patterns). *)

From Stdlib Require Import ZArith List String Ascii Bool Lia.
From Stdlib Require Import Decimal DecimalZ DecimalPos.
From Stdlib Require Import PrimFloat.
From Stdlib Require Uint63.
From stdpp Require Import base option gmap strings.
Import ListNotations.

Local Open Scope string_scope.
Local Open Scope list_scope.

(* ===================================================================== *)
(** * Part I: definitions                                                 *)
(* ===================================================================== *)

(** ** addAndConsolidate *)

Module Consolidate.

(** The test of the [if] inside the loop: [flex] is the flex being added,
    [last] the last element of the list built so far. *)
Definition redundant (flex last : string) : bool :=
  (String.eqb flex "<" && String.eqb last ">")
  || (String.eqb flex ">" && String.eqb last "<")
  || (String.eqb flex "^" && String.eqb last "^").

(** [allflexes.length > 0 ? allflexes[allflexes.length - 1] : ""] *)
Definition lastOrEmpty (allflexes : list string) : string :=
  match allflexes with
  | [] => ""
  | _ => List.last allflexes ""
  end.

(** First loop: copy the old list across, one [push] at a time. *)
Definition copyAcross (oldFlexes : list string) : list string :=
  fold_left (fun allflexes flex => allflexes ++ [flex]) oldFlexes [].

(** One iteration of the second loop on the state [(allflexes, start)]. *)
Definition addStep (st : list string * bool) (flex : string)
  : list string * bool :=
  let '(allflexes, start) := st in
  if start then
    if redundant flex (lastOrEmpty allflexes)
    then (removelast allflexes, true)           (* pop(); continue *)
    else (allflexes ++ [flex], false)           (* start = false; push *)
  else (allflexes ++ [flex], false).

Definition addAndConsolidate (oldFlexes newFlexes : list string)
  : list string :=
  fst (fold_left addStep newFlexes (copyAcross oldFlexes, true)).

(** The three pairs that cancel, as a relation on
    (last remaining old element, next new element). *)
Inductive inversePair : string -> string -> Prop :=
| inv_right_left : inversePair ">" "<"
| inv_left_right : inversePair "<" ">"
| inv_over_over : inversePair "^" "^".

End Consolidate.

(** ** Rotates and their inverses *)

Module Rotates.

(** The three flexes that [addAndConsolidate] cancels: the shifts of the
    current hinge and the turn over. *)
Definition isRotate (flex : string) : bool :=
  String.eqb flex "<" || String.eqb flex ">" || String.eqb flex "^".

(** The rotate that cancels a rotate. *)
Definition undoRotate (flex : string) : string :=
  if String.eqb flex ">" then "<"
  else if String.eqb flex "<" then ">"
  else flex.

(** The sequence that takes a sequence of rotates back, last rotate
    first. *)
Definition undoRotates (flexes : list string) : list string :=
  rev (List.map undoRotate flexes).

End Rotates.

(** ** Pats and flexagons *)

Module Pats.

(** Modelled from the spec: the pat/leaf model (src/flex/Pat.ts and
    Flexagon.ts are not part of the source tree).  A leaf is a signed
    identifier; a pat is a leaf or a nested group of pats ("a tagged variant
    Leaf(id) | Group(sequence of Node)"); a flexagon is the ring of its
    pats, written as in the flexagon literal notation: [[1,2],3] is
    [Group [Leaf 1; Leaf 2]; Leaf 3]. *)
#[warnings="-register-all"]
Inductive LeafTree : Type :=
| Leaf (id : Z)
| Group (ts : list LeafTree).

Definition Flexagon : Type := list LeafTree.

(** Modelled from the spec: turning a pat over "negate[s] every leaf id and
    reverse[s] tree ... order". *)
Fixpoint flipPat (t : LeafTree) : LeafTree :=
  match t with
  | Leaf id => Leaf (- id)
  | Group ts => Group (rev (List.map flipPat ts))
  end.

(** Modelled from the spec: rotating the ring by one step; on the ring
    [1,2,3,4] the flex ">" of test/analyze/testExplore.ts gives
    [2,3,4,1]. *)
Definition rotateRight (f : Flexagon) : Flexagon :=
  match f with
  | [] => []
  | p :: ps => ps ++ [p]
  end.

(** Modelled from the spec: turning the whole flexagon over "negate[s]
    every leaf id and reverse[s] pat order"; on [1,2,3,4] the flex "^" of
    the same test gives [-4,-3,-2,-1]. *)
Definition turnOver (f : Flexagon) : Flexagon :=
  rev (List.map flipPat f).

(** Modelled from the spec: unifying a pattern pat with a pat: "structural
    nesting must match exactly" at the groups of the pattern (a group
    matches a group of the same arity, never a leaf); a leaf slot binds
    what stands at its position, a leaf or a whole folded pat (the formula
    of [Iv] in the test file needs the latter), turned over when the slot
    is negative. *)
Fixpoint matchPat (pattern actual : LeafTree) (b : gmap Z LeafTree)
  {struct pattern} : option (gmap Z LeafTree) :=
  match pattern with
  | Leaf id =>
      Some (<[Z.abs id := if (0 <? id)%Z then actual else flipPat actual]> b)
  | Group ps =>
      match actual with
      | Leaf _ => None
      | Group ts =>
          (fix members (ps ts : list LeafTree) (b : gmap Z LeafTree)
             {struct ps} : option (gmap Z LeafTree) :=
             match ps, ts with
             | [], [] => Some b
             | p :: ps', t :: ts' =>
                 match matchPat p t b with
                 | Some b' => members ps' ts' b'
                 | None => None
                 end
             | _, _ => None
             end) ps ts b
      end
  end.

(** "substitute bound leaf ids into outputPattern" *)
Fixpoint substPat (out : LeafTree) (b : gmap Z LeafTree) : option LeafTree :=
  match out with
  | Leaf id =>
      match b !! Z.abs id with
      | Some t => Some (if (0 <? id)%Z then t else flipPat t)
      | None => None
      end
  | Group os =>
      match
        (fix members (os : list LeafTree) : option (list LeafTree) :=
           match os with
           | [] => Some []
           | o :: os' =>
               match substPat o b, members os' with
               | Some t, Some ts => Some (t :: ts)
               | _, _ => None
               end
           end) os
      with
      | Some ts => Some (Group ts)
      | None => None
      end
  end.

End Pats.

(** ** The tracker *)

Module Tracker.
Import Pats.

(** Modelled from the spec: the reflection of a flexagon (Tracker.ts is not
    part of the source tree): its mirror image, the ring read in the
    opposite direction.  Together with turning over and the rotations it
    generates the "2 flip states x 2 reflection states x ringLength
    rotations" of the spec. *)
Definition reflect (f : Flexagon) : Flexagon := rev f.

(** [rotateBy k f]: [k] steps of [rotateRight]. *)
Definition rotateBy (k : nat) (f : Flexagon) : Flexagon :=
  Nat.iter k rotateRight f.

(** The [ringLength] rotations of a ring, offsets 0 to [n - 1]. *)
Fixpoint rotations (n : nat) (f : Flexagon) : list Flexagon :=
  match n with
  | O => []
  | S n' => f :: rotations n' (rotateRight f)
  end.

(** Modelled from the spec: "all 2 x 2 x ringLength symmetry images
    (identity/reflection x face-up/face-down x each rotation offset)". *)
Definition images (f : Flexagon) : list Flexagon :=
  let n := length f in
  rotations n f ++ rotations n (reflect f)
  ++ rotations n (turnOver f) ++ rotations n (reflect (turnOver f)).

(** Lexicographic comparison of two sequences. *)
Fixpoint lexCompare {A : Type} (cmp : A -> A -> comparison)
  (xs ys : list A) : comparison :=
  match xs, ys with
  | [], [] => Eq
  | [], _ :: _ => Lt
  | _ :: _, [] => Gt
  | x :: xs', y :: ys' =>
      match cmp x y with
      | Eq => lexCompare cmp xs' ys'
      | c => c
      end
  end.

(** Modelled from the spec: the total order that picks the "deterministic
    minimum representative": leaves by their signed id, a leaf before a
    group, groups lexicographically. *)
Fixpoint compareTree (a b : LeafTree) {struct a} : comparison :=
  match a, b with
  | Leaf x, Leaf y => Z.compare x y
  | Leaf _, Group _ => Lt
  | Group _, Leaf _ => Gt
  | Group xs, Group ys => lexCompare compareTree xs ys
  end.

Definition compareFlexagon (f g : Flexagon) : comparison :=
  lexCompare compareTree f g.

(** The smaller of two flexagons, the first when they compare equal. *)
Definition smaller (f g : Flexagon) : Flexagon :=
  match compareFlexagon g f with
  | Lt => g
  | _ => f
  end.

(** Modelled from the spec: the canonical key, "the lexicographically ...
    smallest signed-leaf-sequence encoding among all 4 x ringLength
    images". *)
Definition canonicalKey (f : Flexagon) : Flexagon :=
  fold_left smaller (images f) f.

(** Modelled from the spec: the tracker state, "a mapping from
    canonical-form key to sequential index (insertion order = discovery
    order)", kept as the list of keys in discovery order: the index of a
    key is its position. *)
Record TrackerState := mkTracker { keys : list Flexagon }.

(** The index of a key: its first position in the list. *)
Fixpoint indexOf (key : Flexagon) (ks : list Flexagon) : option nat :=
  match ks with
  | [] => None
  | k :: ks' =>
      match compareFlexagon key k with
      | Eq => Some 0
      | _ => match indexOf key ks' with
             | Some i => Some (S i)
             | None => None
             end
      end
  end.

(** Modelled from the spec: [new Tracker(flexagon)] registers the starting
    flexagon at index 0. *)
Definition newTracker (f : Flexagon) : TrackerState :=
  mkTracker [canonicalKey f].

(** Modelled from the spec: [findMaybeAdd]: "if found, returns its existing
    index (no insertion)"; "if not found, inserts it at the next sequential
    index and returns null". *)
Definition findMaybeAdd (f : Flexagon) (t : TrackerState)
  : option nat * TrackerState :=
  match indexOf (canonicalKey f) (keys t) with
  | Some i => (Some i, t)
  | None => (None, mkTracker (keys t ++ [canonicalKey f]))
  end.

(** Modelled from the spec: [getTotalStates] "returns the number of
    distinct canonical keys recorded". *)
Definition getTotalStates (t : TrackerState) : nat := length (keys t).

(** The tracker after [new Tracker(f0)] and one [findMaybeAdd] call for
    each flexagon of [fs], in order. *)
Definition trackerAfter (f0 : Flexagon) (fs : list Flexagon) : TrackerState :=
  fold_left (fun t f => snd (findMaybeAdd f t)) fs (newTracker f0).

(** One symmetry move: a rotation step, a reflection, or turning over. *)
Inductive move : Flexagon -> Flexagon -> Prop :=
| move_rotate f : move f (rotateRight f)
| move_reflect f : move f (reflect f)
| move_turnOver f : move f (turnOver f).

(** Two flexagons are the same state when symmetry moves lead from one to
    the other: the equivalence generated by [move]. *)
Inductive sameState : Flexagon -> Flexagon -> Prop :=
| same_move f g : move f g -> sameState f g
| same_refl f : sameState f f
| same_sym f g : sameState f g -> sameState g f
| same_trans f g h : sameState f g -> sameState g h -> sameState f h.

(** Flipping every pat in place. *)
Definition flipAll (f : Flexagon) : Flexagon := List.map flipPat f.

(** [onlyIf c op]: apply [op] when [c] holds. *)
Definition onlyIf (c : bool) (op : Flexagon -> Flexagon) (f : Flexagon)
  : Flexagon :=
  if c then op f else f.

(** The images of [f] in normal form: flip in place or not, reflect or
    not, then rotate. *)
Definition inOrbit (f x : Flexagon) : Prop :=
  exists (k : nat) (a b : bool),
    x = rotateBy k (onlyIf a reflect (onlyIf b flipAll f)).

(** [f] is not after [g] in the order. *)
Definition notAfter (f g : Flexagon) : Prop := compareFlexagon f g <> Gt.

(** The flexagons of the tracker tests. *)
Definition pairPat (a b : Z) : LeafTree := Group [Leaf a; Leaf b].

Definition original : Flexagon :=
  [pairPat 1 2; Leaf 3; pairPat 4 5; Leaf 6].
Definition rotated : Flexagon :=
  [pairPat 4 5; Leaf 6; pairPat 1 2; Leaf 3].
Definition flipped : Flexagon :=
  [Leaf (-3); pairPat (-2) (-1); Leaf (-6); pairPat (-5) (-4)].
Definition other : Flexagon :=
  [Leaf 1; pairPat 2 3; Leaf 4; pairPat 5 6].

End Tracker.

(** ** Flexes and the explorer *)

Module Explore.
Import Pats Tracker.

(** Modelled from the spec: a flex (Flex.ts is not part of the source
    tree), "{ name, inputPattern, outputPattern, rotationSymmetry }", built
    as [makeFlex name input output rotation] in testExplore.ts. *)
Inductive FlexRotation := RotationNone | RotationMirror.

Record Flex := makeFlex {
  flexTitle : string;
  inputPattern : list LeafTree;
  outputPattern : list LeafTree;
  rotationSymmetry : FlexRotation;
}.

(** The pats of the ring against the pats of the pattern, one for one. *)
Fixpoint matchRing (patterns pats : list LeafTree) (b : gmap Z LeafTree)
  : option (gmap Z LeafTree) :=
  match patterns, pats with
  | [], [] => Some b
  | p :: patterns', t :: pats' =>
      match matchPat p t b with
      | Some b' => matchRing patterns' pats' b'
      | None => None
      end
  | _, _ => None
  end.

Fixpoint substRing (outs : list LeafTree) (b : gmap Z LeafTree)
  : option Flexagon :=
  match outs with
  | [] => Some []
  | o :: outs' =>
      match substPat o b, substRing outs' b with
      | Some t, Some rest => Some (t :: rest)
      | _, _ => None
      end
  end.

(** The flex at the ring as it stands: unify, then substitute. *)
Definition applyAt (flex : Flex) (f : Flexagon) : option Flexagon :=
  match matchRing (inputPattern flex) f ∅ with
  | Some b => substRing (outputPattern flex) b
  | None => None
  end.

(** The first of the rotations [k], [k + 1], ... (at most [steps] of them)
    at which the flex applies, with the result in the rotated frame. *)
Fixpoint firstRotation (flex : Flex) (f : Flexagon) (k steps : nat)
  : option (nat * Flexagon) :=
  match steps with
  | O => None
  | S steps' =>
      match applyAt flex (rotateBy k f) with
      | Some r => Some (k, r)
      | None => firstRotation flex f (S k) steps'
      end
  end.

(** Modelled from the spec: [apply]: "for each of the ringLength rotations
    ... (and, if rotationSymmetry = Mirror, also each rotation of the
    reflected sequence) ... First successful unification wins", then "undo
    the rotation/reflection used for matching". *)
Definition apply (flex : Flex) (f : Flexagon) : option Flexagon :=
  let n := length f in
  match firstRotation flex f 0 n with
  | Some (k, r) => Some (rotateBy (n - k) r)
  | None =>
      match rotationSymmetry flex with
      | RotationMirror =>
          match firstRotation flex (turnOver f) 0 n with
          | Some (k, r) => Some (turnOver (rotateBy (n - k) r))
          | None => None
          end
      | RotationNone => None
      end
  end.

(** Modelled from the spec: the explore state: the flex set (in the order
    the flexes were added), the tracker, the frontier queue of
    (flexagon, tracker index) pairs and the count of explored states. *)
Record ExploreState := mkExplore {
  flexes : list (string * Flex);
  tracker : TrackerState;
  frontier : list (Flexagon * nat);
  explored : nat;
}.

Definition newExplore (f : Flexagon) (flexes : list (string * Flex))
  : ExploreState :=
  mkExplore flexes (newTracker f) [(f, 0)] 0.

(** One result of a flex: track it, and enqueue it when it is new. *)
Definition discover (e : ExploreState) (result : Flexagon) : ExploreState :=
  match findMaybeAdd result (tracker e) with
  | (None, t) =>
      mkExplore (flexes e) t
                (frontier e ++ [(result, getTotalStates (tracker e))])
                (explored e)
  | (Some _, _) => e
  end.

(** Modelled from the spec: [checkNext] "pops the next unexpanded
    (flexagon, index); for every flex in the supplied flex set, attempts
    apply; on success, calls Tracker.findMaybeAdd on the result", marks the
    popped state explored, and "returns false once the frontier is
    empty". *)
Definition checkNext (e : ExploreState) : bool * ExploreState :=
  match frontier e with
  | [] => (false, e)
  | (f, _) :: rest =>
      let popped := mkExplore (flexes e) (tracker e) rest (explored e) in
      let after :=
        fold_left (fun e' entry =>
                     match apply (snd entry) f with
                     | Some result => discover e' result
                     | None => e'
                     end) (flexes e) popped in
      (true, mkExplore (flexes after) (tracker after) (frontier after)
                       (S (explored after)))
  end.

(** Every orientation of a flexagon: its rotations, face up and face
    down. *)
Definition orientations (f : Flexagon) : list Flexagon :=
  rotations (length f) f ++ rotations (length f) (turnOver f).

(** A variant of [checkNext] that keeps every match instead of the first:
    each flex is tried at every orientation of the popped flexagon. *)
Definition checkNextEverywhere (e : ExploreState) : bool * ExploreState :=
  match frontier e with
  | [] => (false, e)
  | (f, _) :: rest =>
      let popped := mkExplore (flexes e) (tracker e) rest (explored e) in
      let after :=
        fold_left (fun e' entry =>
                     fold_left (fun e'' g =>
                                  match applyAt (snd entry) g with
                                  | Some result => discover e'' result
                                  | None => e''
                                  end) (orientations f) e')
                  (flexes e) popped in
      (true, mkExplore (flexes after) (tracker after) (frontier after)
                       (S (explored after)))
  end.

(** [calls] calls of a step function, as [while (explore.checkNext()) {}]
    makes them: the run stops at the first call that returns false. *)
Fixpoint callsUntilDone (step : ExploreState -> bool * ExploreState)
  (calls : nat) (e : ExploreState) : bool * ExploreState :=
  match calls with
  | O => (true, e)
  | S calls' =>
      match step e with
      | (true, e') => callsUntilDone step calls' e'
      | (false, e') => (false, e')
      end
  end.

(** The flex set of test/analyze/testExplore.ts. *)
Definition testFlexes : list (string * Flex) :=
  [ (">", makeFlex "shift right"
            [Leaf 1; Leaf 2; Leaf 3; Leaf 4]
            [Leaf 2; Leaf 3; Leaf 4; Leaf 1] RotationMirror);
    ("<", makeFlex "shift left"
            [Leaf 1; Leaf 2; Leaf 3; Leaf 4]
            [Leaf 4; Leaf 1; Leaf 2; Leaf 3] RotationMirror);
    ("^", makeFlex "turn over"
            [Leaf 1; Leaf 2; Leaf 3; Leaf 4]
            [Leaf (-4); Leaf (-3); Leaf (-2); Leaf (-1)] RotationNone);
    ("A", makeFlex "A"
            [Group [Leaf 1; Leaf 2]; Leaf 3; Leaf 4; Leaf 5]
            [Leaf 1; Group [Leaf 2; Leaf 3]; Leaf 4; Leaf 5] RotationNone);
    ("B", makeFlex "B"
            [Group [Leaf 1; Leaf 2]; Leaf 3; Group [Leaf 4; Leaf 5]; Leaf 6]
            [Leaf 1; Leaf 2; Group [Leaf 3; Leaf 4];
             Group [Leaf 5; Leaf 6]] RotationNone) ]%string.

(** What a call reports: its return value, the number of tracked states and
    the number of explored states. *)
Definition counts (r : bool * ExploreState) : bool * nat * nat :=
  (fst r, getTotalStates (tracker (snd r)), explored (snd r)).

End Explore.

(** ** Atomic patterns *)

Module Atomic.
Import Pats.

Local Open Scope char_scope.

(** Modelled from the spec: atomic patterns (src/atomic is not part of the
    source tree).  The spec gives the grammar of the pats ("a signed integer
    (leaf id) or a bracketed comma-separated nested group", "exactly one /
    token"); the literals of test/atomic/testMakeAtomicFlexes.ts show the
    rest of the form: the unnamed pats beyond each end (a, -a, b or -b) and
    a direction (> or <) after every pat, as in [a 1 > / [-3,2] > b]. *)
Inductive Remainder := RemA | RemNegA | RemB | RemNegB.

Inductive PatDirection := DirGt | DirLt.

Record ConnectedPat := mkConnected {
  pat : LeafTree;
  direction : PatDirection;
}.

(** [left] and [right] list the pats on each side of the hinge [/], the
    one next to the hinge first. *)
Record AtomicPattern := mkPattern {
  otherLeft : Remainder;
  left : list ConnectedPat;
  right : list ConnectedPat;
  otherRight : Remainder;
}.

Inductive AtomicParseError :=
| ExpectedRemainder
| MalformedPat
| ExpectedHinge
| UnexpectedInput.

(** *** Printing *)

Definition printRemainder (r : Remainder) : list ascii :=
  match r with
  | RemA => ["a"]
  | RemNegA => ["-"; "a"]
  | RemB => ["b"]
  | RemNegB => ["-"; "b"]
  end.

Definition printDirection (d : PatDirection) : ascii :=
  match d with
  | DirGt => ">"
  | DirLt => "<"
  end.

Fixpoint printUint (d : Decimal.uint) : list ascii :=
  match d with
  | Nil => []
  | D0 d' => "0" :: printUint d'
  | D1 d' => "1" :: printUint d'
  | D2 d' => "2" :: printUint d'
  | D3 d' => "3" :: printUint d'
  | D4 d' => "4" :: printUint d'
  | D5 d' => "5" :: printUint d'
  | D6 d' => "6" :: printUint d'
  | D7 d' => "7" :: printUint d'
  | D8 d' => "8" :: printUint d'
  | D9 d' => "9" :: printUint d'
  end.

(** Modelled from the spec: a leaf id in decimal, "leading - for negative
    leaf ids". *)
Definition printZ (z : Z) : list ascii :=
  match Z.to_int z with
  | Decimal.Pos d => printUint d
  | Decimal.Neg d => "-" :: printUint d
  end.

(** Modelled from the spec: the members of a group, separated by commas,
    up to the closing bracket ("nested brackets [a,b] for a folded pair"). *)
Fixpoint joinItems (items : list (list ascii)) : list ascii :=
  match items with
  | [] => ["]"]
  | x :: rest =>
      x ++ match rest with
           | [] => ["]"]
           | _ :: _ => "," :: joinItems rest
           end
  end.

Fixpoint printPat (t : LeafTree) : list ascii :=
  match t with
  | Leaf id => printZ id
  | Group ts => "[" :: joinItems (List.map printPat ts)
  end.

Definition printConnected (cp : ConnectedPat) : list ascii :=
  " " :: printPat (pat cp) ++ [" "; printDirection (direction cp)].

Definition printPattern (p : AtomicPattern) : list ascii :=
  printRemainder (otherLeft p)
  ++ concat (List.map printConnected (rev (left p)))
  ++ [" "; "/"]
  ++ concat (List.map printConnected (right p))
  ++ " " :: printRemainder (otherRight p).

(** Modelled from the spec: [atomicPatternToString]: "space-separated
    tokens", the pats of the left side from the farthest to the one at the
    hinge, "/ marking the ring-rotation point". *)
Definition atomicPatternToString (p : AtomicPattern) : string :=
  string_of_list_ascii (printPattern p).

(** *** Parsing *)

Fixpoint skipSpaces (s : list ascii) : list ascii :=
  match s with
  | " " :: s' => skipSpaces s'
  | _ => s
  end.

Definition digitOf (c : ascii) : option (Decimal.uint -> Decimal.uint) :=
  match c with
  | "0" => Some D0
  | "1" => Some D1
  | "2" => Some D2
  | "3" => Some D3
  | "4" => Some D4
  | "5" => Some D5
  | "6" => Some D6
  | "7" => Some D7
  | "8" => Some D8
  | "9" => Some D9
  | _ => None
  end.

(** The longest run of digits at the start of the input. *)
Fixpoint parseUint (s : list ascii) : Decimal.uint * list ascii :=
  match s with
  | [] => (Nil, [])
  | c :: s' =>
      match digitOf c with
      | Some digit => let '(d, rest) := parseUint s' in (digit d, rest)
      | None => (Nil, s)
      end
  end.

Definition parseZ (s : list ascii) : option (Z * list ascii) :=
  match s with
  | "-" :: s' =>
      match parseUint s' with
      | (Nil, _) => None
      | (d, rest) => Some (Z.of_int (Decimal.Neg d), rest)
      end
  | _ =>
      match parseUint s with
      | (Nil, _) => None
      | (d, rest) => Some (Z.of_int (Decimal.Pos d), rest)
      end
  end.

(** Recursive descent over a pat; [fuel] bounds the nesting and the number
    of members, and the length of the input is always enough. *)
Fixpoint parsePat (fuel : nat) (s : list ascii)
  : option (LeafTree * list ascii) :=
  match fuel with
  | O => None
  | S fuel' =>
      match s with
      | "[" :: s1 =>
          match skipSpaces s1 with
          | "]" :: s2 => Some (Group [], s2)
          | s2 =>
              match parseItems fuel' s2 with
              | Some (ts, s3) => Some (Group ts, s3)
              | None => None
              end
          end
      | _ =>
          match parseZ s with
          | Some (id, s1) => Some (Leaf id, s1)
          | None => None
          end
      end
  end
with parseItems (fuel : nat) (s : list ascii)
  : option (list LeafTree * list ascii) :=
  match fuel with
  | O => None
  | S fuel' =>
      match parsePat fuel' (skipSpaces s) with
      | Some (t, s1) =>
          match skipSpaces s1 with
          | "," :: s2 =>
              match parseItems fuel' s2 with
              | Some (ts, s3) => Some (t :: ts, s3)
              | None => None
              end
          | "]" :: s2 => Some ([t], s2)
          | _ => None
          end
      | None => None
      end
  end.

Definition parseDirection (s : list ascii)
  : option (PatDirection * list ascii) :=
  match s with
  | ">" :: s' => Some (DirGt, s')
  | "<" :: s' => Some (DirLt, s')
  | _ => None
  end.

Definition parseRemainder (s : list ascii)
  : option (Remainder * list ascii) :=
  match s with
  | "a" :: s' => Some (RemA, s')
  | "b" :: s' => Some (RemB, s')
  | "-" :: "a" :: s' => Some (RemNegA, s')
  | "-" :: "b" :: s' => Some (RemNegB, s')
  | _ => None
  end.

(** Whether the input goes on with a pat: a bracket, a digit, or a minus
    sign before a digit. *)
Definition startsPat (s : list ascii) : bool :=
  match s with
  | "[" :: _ => true
  | "-" :: c :: _ => match digitOf c with Some _ => true | None => false end
  | c :: _ => match digitOf c with Some _ => true | None => false end
  | [] => false
  end.

(** The pats of one side with their directions, in reading order; [n]
    bounds their number.  What follows them is returned with its leading
    spaces removed. *)
Fixpoint parseConnected (fuel n : nat) (s : list ascii)
  : option (list ConnectedPat * list ascii) :=
  match n with
  | O => None
  | S n' =>
      let s0 := skipSpaces s in
      if startsPat s0 then
        match parsePat fuel s0 with
        | Some (t, s1) =>
            match parseDirection (skipSpaces s1) with
            | Some (d, s2) =>
                match parseConnected fuel n' s2 with
                | Some (cps, s3) => Some (mkConnected t d :: cps, s3)
                | None => None
                end
            | None => None
            end
        | None => None
        end
      else Some ([], s0)
  end.

(** The parser for a given amount of fuel. *)
Definition parsePatternWith (fuel : nat) (s : list ascii)
  : AtomicPattern + AtomicParseError :=
  match parseRemainder (skipSpaces s) with
  | None => inr ExpectedRemainder
  | Some (ol, s1) =>
      match parseConnected fuel (S fuel) s1 with
      | None => inr MalformedPat
      | Some (lefts, "/" :: s2) =>
          match parseConnected fuel (S fuel) s2 with
          | None => inr MalformedPat
          | Some (rights, s3) =>
              match parseRemainder s3 with
              | None => inr ExpectedRemainder
              | Some (or, s4) =>
                  match skipSpaces s4 with
                  | [] => inl (mkPattern ol (rev lefts) rights or)
                  | _ :: _ => inr UnexpectedInput
                  end
              end
          end
      | Some (_, _) => inr ExpectedHinge
      end
  end.

Definition parsePattern (s : list ascii) : AtomicPattern + AtomicParseError :=
  parsePatternWith (length s) s.

(** Modelled from the spec: [stringToAtomicPattern], the inverse of
    [atomicPatternToString]; spaces between tokens and after the commas of
    a group are skipped (the test file writes [[-2, 1]]). *)
Definition stringToAtomicPattern (s : string)
  : AtomicPattern + AtomicParseError :=
  parsePattern (list_ascii_of_string s).

(** *** Notions for the round trip *)

Definition isDigit (c : ascii) : bool :=
  match digitOf c with Some _ => true | None => false end.

(** The input does not go on with a digit. *)
Definition noDigitAhead (r : list ascii) : Prop :=
  match r with
  | [] => True
  | c :: _ => isDigit c = false
  end.

(** The first character of a printed pat: a bracket, a digit, or a minus
    sign followed by a digit. *)
Definition isPatStart (c : ascii) : bool :=
  match c with
  | "[" => true
  | "-" => true
  | _ => isDigit c
  end.

(** The fuel a pat needs: one unit per pat and per member of a group. *)
Fixpoint patSize (t : LeafTree) : nat :=
  match t with
  | Leaf _ => 1
  | Group ts => S (list_sum (List.map (fun t' => S (patSize t')) ts))
  end.

Definition itemsSize (ts : list LeafTree) : nat :=
  list_sum (List.map (fun t' => S (patSize t')) ts).

(** *** Flexes on atomic patterns *)

Inductive AtomicPatternError :=
| NotEnoughPats
| PatMismatch
| DirectionMismatch
| UnboundLeaf
| UnknownAtomicFlex (name : string)
| MalformedFormula.

Definition flipDirection (d : PatDirection) : PatDirection :=
  match d with
  | DirGt => DirLt
  | DirLt => DirGt
  end.

Definition sameDirection (d e : PatDirection) : bool :=
  match d, e with
  | DirGt, DirGt | DirLt, DirLt => true
  | _, _ => false
  end.

Definition negRemainder (r : Remainder) : Remainder :=
  match r with
  | RemA => RemNegA
  | RemNegA => RemA
  | RemB => RemNegB
  | RemNegB => RemB
  end.

Definition isNegated (r : Remainder) : bool :=
  match r with
  | RemNegA | RemNegB => true
  | RemA | RemB => false
  end.

Definition namesA (r : Remainder) : bool :=
  match r with
  | RemA | RemNegA => true
  | RemB | RemNegB => false
  end.

(** What lies on one side beyond the pats a pattern names: the remaining
    pats, the one next to the hinge first, and the unnamed rest. *)
Record SideContent := mkSide {
  beyond : Remainder;
  sidePats : list ConnectedPat;
}.

(** Modelled from the spec: turning over "negate[s] every leaf id and
    reverse[s] tree ... order"; the directions change with it (the test
    of [%]: with [~] and [^] composed, [a / b] becomes [b / a]). *)
Definition turnedOver (c : SideContent) : SideContent :=
  mkSide (negRemainder (beyond c))
         (List.map (fun cp => mkConnected (flipPat (pat cp))
                                          (flipDirection (direction cp)))
                   (sidePats c)).

(** The same pats seen from the other side of the hinge. *)
Definition movedAcross (c : SideContent) : SideContent :=
  mkSide (beyond c)
         (List.map (fun cp => mkConnected (pat cp)
                                          (flipDirection (direction cp)))
                   (sidePats c)).

Fixpoint substPats (outs : list ConnectedPat) (b : gmap Z LeafTree)
  : option (list ConnectedPat) :=
  match outs with
  | [] => Some []
  | o :: outs' =>
      match substPat (pat o) b, substPats outs' b with
      | Some t, Some rest => Some (mkConnected t (direction o) :: rest)
      | _, _ => None
      end
  end.

(** The pats of one side against the pattern's, from the hinge outwards;
    returns the bindings and the pats the pattern does not name. *)
Fixpoint matchSide (patterns actuals : list ConnectedPat)
  (b : gmap Z LeafTree)
  : (gmap Z LeafTree * list ConnectedPat) + AtomicPatternError :=
  match patterns, actuals with
  | [], _ => inl (b, actuals)
  | _ :: _, [] => inr NotEnoughPats
  | p :: patterns', a :: actuals' =>
      if sameDirection (direction p) (direction a) then
        match matchPat (pat p) (pat a) b with
        | Some b' => matchSide patterns' actuals' b'
        | None => inr PatMismatch
        end
      else inr DirectionMismatch
  end.

(** What [a] and [b] stand for, each with the side it was matched on
    ([true] for the left). *)
Record Remainders := mkRemainders {
  boundA : option (bool * SideContent);
  boundB : option (bool * SideContent);
}.

Definition bindRemainder (r : Remainder) (onLeft : bool) (c : SideContent)
  (bound : Remainders) : Remainders :=
  let value := (onLeft, if isNegated r then turnedOver c else c) in
  if namesA r then mkRemainders (Some value) (boundB bound)
  else mkRemainders (boundA bound) (Some value).

Definition lookupRemainder (r : Remainder) (onLeft : bool)
  (bound : Remainders) : option SideContent :=
  match (if namesA r then boundA bound else boundB bound) with
  | Some (side, c) =>
      let placed := if Bool.eqb side onLeft then c else movedAcross c in
      Some (if isNegated r then turnedOver placed else placed)
  | None => None
  end.

(** Modelled from the spec: "apply a named flex's underlying pattern
    substitution": match the input against [pattern], then build
    [output] from the bindings. *)
Definition applyPattern (pattern output input : AtomicPattern)
  : AtomicPattern + AtomicPatternError :=
  match matchSide (left pattern) (left input) ∅ with
  | inr e => inr e
  | inl (b1, restLeft) =>
      match matchSide (right pattern) (right input) b1 with
      | inr e => inr e
      | inl (b2, restRight) =>
          let bound :=
            bindRemainder (otherRight pattern) false
              (mkSide (otherRight input) restRight)
              (bindRemainder (otherLeft pattern) true
                 (mkSide (otherLeft input) restLeft)
                 (mkRemainders None None)) in
          match lookupRemainder (otherLeft output) true bound,
                lookupRemainder (otherRight output) false bound,
                substPats (left output) b2,
                substPats (right output) b2 with
          | Some onLeft, Some onRight, Some newLeft, Some newRight =>
              inl (mkPattern (beyond onLeft) (newLeft ++ sidePats onLeft)
                             (newRight ++ sidePats onRight) (beyond onRight))
          | _, _, _, _ => inr UnboundLeaf
          end
      end
  end.

(** Modelled from the spec: "rotate the pat sequence by one step": the
    hinge moves past one pat (the test of [>]: [a / 1 < b] becomes
    [a 1 < / b]). *)
Definition shiftHinge (toRight : bool) (input : AtomicPattern)
  : AtomicPattern + AtomicPatternError :=
  if toRight then
    match right input with
    | cp :: rest =>
        inl (mkPattern (otherLeft input) (cp :: left input) rest
                       (otherRight input))
    | [] => inr NotEnoughPats
    end
  else
    match left input with
    | cp :: rest =>
        inl (mkPattern (otherLeft input) rest (cp :: right input)
                       (otherRight input))
    | [] => inr NotEnoughPats
    end.

Inductive AtomicFlex :=
| PatternFlex (pattern output : AtomicPattern)
| ShiftFlex (toRight : bool).

Definition AtomicFlex_apply (f : AtomicFlex) (input : AtomicPattern)
  : AtomicPattern + AtomicPatternError :=
  match f with
  | PatternFlex pattern output => applyPattern pattern output input
  | ShiftFlex toRight => shiftHinge toRight input
  end.

Definition inverseFlex (f : AtomicFlex) : AtomicFlex :=
  match f with
  | PatternFlex pattern output => PatternFlex output pattern
  | ShiftFlex toRight => ShiftFlex (negb toRight)
  end.

Definition hingeOnly (l r : Remainder) : AtomicPattern :=
  mkPattern l [] [] r.

(** Modelled from the spec: the base flexes.  [^] turns the flexagon over
    ([a / b] to [-b / -a]); [~] turns it over about the other axis
    ([a / b] to [-a / -b]); [Ur] is the unfold recorded in the test file,
    [a / [-2,1] > b] to [a / 1 < 2 > -b]. *)
Definition baseFlexes : list (string * AtomicFlex) :=
  [ (">", ShiftFlex true);
    ("<", ShiftFlex false);
    ("^", PatternFlex (hingeOnly RemA RemB) (hingeOnly RemNegB RemNegA));
    ("~", PatternFlex (hingeOnly RemA RemB) (hingeOnly RemNegA RemNegB));
    ("Ur", PatternFlex
             (mkPattern RemA []
                [mkConnected (Group [Leaf (-2); Leaf 1]) DirGt] RemB)
             (mkPattern RemA []
                [mkConnected (Leaf 1) DirLt; mkConnected (Leaf 2) DirGt]
                RemNegB)) ]%string.

(** Every flex is registered with its inverse, named with a quote. *)
Definition register (table : gmap string AtomicFlex)
  (entry : string * AtomicFlex) : gmap string AtomicFlex :=
  <[ (fst entry +:+ "'")%string := inverseFlex (snd entry) ]>
    (<[ fst entry := snd entry ]> table).

(** *** Formulas *)

Record FlexName := mkFlexName {
  baseName : string;
  isInverse : bool;
}.

Definition fullName (f : FlexName) : string :=
  if isInverse f then (baseName f +:+ "'")%string else baseName f.

Definition isUpper (c : ascii) : bool :=
  (65 <=? nat_of_ascii c)%nat && (nat_of_ascii c <=? 90)%nat.

Definition isLower (c : ascii) : bool :=
  (97 <=? nat_of_ascii c)%nat && (nat_of_ascii c <=? 122)%nat.

Definition isSymbol (c : ascii) : bool :=
  match c with
  | ">" | "<" | "^" | "~" => true
  | _ => false
  end.

Fixpoint takeLower (s : list ascii) : list ascii * list ascii :=
  match s with
  | c :: s' =>
      if isLower c then let '(w, rest) := takeLower s' in (c :: w, rest)
      else ([], s)
  | [] => ([], [])
  end.

Definition takeQuote (s : list ascii) : bool * list ascii :=
  match s with
  | "'" :: s' => (true, s')
  | _ => (false, s)
  end.

(** A repeat count, 1 when there is none. *)
Definition takeCount (s : list ascii) : nat * list ascii :=
  match parseUint s with
  | (Nil, rest) => (1, rest)
  | (d, rest) => (Nat.of_uint d, rest)
  end.

Fixpoint repeatFlexes (n : nat) (fs : list FlexName) : list FlexName :=
  match n with
  | O => []
  | S n' => fs ++ repeatFlexes n' fs
  end.

Definition invertAll (fs : list FlexName) : list FlexName :=
  rev (List.map (fun f => mkFlexName (baseName f) (negb (isInverse f))) fs).

(** Modelled from the spec: the formula parser: flex names and the
    symbols [> < ^ ~], a quote for "inverse", and the "repeat shorthand
    (op)n / opn".  [closing] tells whether a group is open. *)
Fixpoint parseSequenceWith (fuel : nat) (s : list ascii) (closing : bool)
  : option (list FlexName * list ascii) :=
  match fuel with
  | O => None
  | S fuel' =>
      match s with
      | [] => if closing then None else Some ([], [])
      | " " :: s' => parseSequenceWith fuel' s' closing
      | ")" :: s' => if closing then Some ([], s') else None
      | "(" :: s' =>
          match parseSequenceWith fuel' s' true with
          | Some (inner, s1) =>
              let '(inverse, s2) := takeQuote s1 in
              let '(n, s3) := takeCount s2 in
              match parseSequenceWith fuel' s3 closing with
              | Some (rest, s4) =>
                  Some (repeatFlexes n (if inverse then invertAll inner
                                        else inner) ++ rest, s4)
              | None => None
              end
          | None => None
          end
      | c :: s' =>
          if isSymbol c || isUpper c then
            let '(w, s1) := if isUpper c then takeLower s' else ([], s') in
            let '(inverse, s2) := takeQuote s1 in
            let '(n, s3) := takeCount s2 in
            match parseSequenceWith fuel' s3 closing with
            | Some (rest, s4) =>
                Some (repeatFlexes n
                        [mkFlexName (string_of_list_ascii (c :: w)) inverse]
                      ++ rest, s4)
            | None => None
            end
          else None
      end
  end.

Definition parseFlexSequence (flexes : string) : option (list FlexName) :=
  let s := list_ascii_of_string flexes in
  match parseSequenceWith (S (length s)) s false with
  | Some (names, _) => Some names
  | None => None
  end.

(** The loop of the test's [applyFlexes]: each flex of the list is looked
    up by its full name and applied; the first error ends the run. *)
Fixpoint applyNames (atomics : gmap string AtomicFlex)
  (names : list FlexName) (input : AtomicPattern)
  : AtomicPattern + AtomicPatternError :=
  match names with
  | [] => inl input
  | flex :: rest =>
      match atomics !! fullName flex with
      | None => inr (UnknownAtomicFlex (fullName flex))
      | Some f =>
          match AtomicFlex_apply f input with
          | inr e => inr e
          | inl result => applyNames atomics rest result
          end
      end
  end.

Definition applyFormula (atomics : gmap string AtomicFlex)
  (input : AtomicPattern) (flexes : string)
  : AtomicPattern + AtomicPatternError :=
  match parseFlexSequence flexes with
  | None => inr MalformedFormula
  | Some names => applyNames atomics names input
  end.

(** Modelled from the spec: a derived flex is obtained "by running a
    declared formula against the primitive base flexes and recording the
    resulting (inputPattern, outputPattern) pair"; a formula that fails
    registers nothing. *)
Definition derive (table : gmap string AtomicFlex)
  (entry : string * string * AtomicPattern) : gmap string AtomicFlex :=
  let '(name, formula, input) := entry in
  match applyFormula table input formula with
  | inl output => register table (name, PatternFlex input output)
  | inr _ => table
  end.

(** Modelled from the spec: [makeAtomicFlexes]: the base flexes and the
    derived flex [Ul = ~ Ur ~], derived on [a / [1,-2] < b]. *)
Definition makeAtomicFlexes : gmap string AtomicFlex :=
  derive (fold_left register baseFlexes ∅)
         ("Ul", "~ Ur ~",
          mkPattern RemA []
            [mkConnected (Group [Leaf 1; Leaf (-2)]) DirLt] RemB)%string.

Definition applyFlexes (input : AtomicPattern) (flexes : string)
  : AtomicPattern + AtomicPatternError :=
  applyFormula makeAtomicFlexes input flexes.

(** How [testFormula] can fail before comparing strings. *)
Inductive FormulaFailure :=
| BadInput (e : AtomicParseError)
| FailedToApply (e : AtomicPatternError).

(** [testFormula name flexes input output] of the test file, up to the
    comparison: the string that [expect(...).toBe(output)] receives. *)
Definition testFormula (flexes input : string) : string + FormulaFailure :=
  match stringToAtomicPattern input with
  | inr e => inr (BadInput e)
  | inl inputPattern =>
      match applyFlexes inputPattern flexes with
      | inr e => inr (FailedToApply e)
      | inl result => inl (atomicPatternToString result)
      end
  end.

End Atomic.

(** ** The manager facade (src/flex/FlexagonManager.ts) *)

Module Manager.

Inductive FlexCode := UnknownFlex | CantApplyFlex.

Record FlexError := mkFlexError { reason : FlexCode; flexName : string }.

(** The classes the manager works with (their files are not part of the
    source tree), by the methods it calls on them.  [Flex_apply] returns
    [Flexagon | FlexError] and the manager only tests the result with
    [isFlexError].  Flexagons are immutable values: a flex returns a new
    flexagon and leaves its argument as it was, so the methods are
    functions of their arguments. *)
Class Collaborators := {
  Flexagon : Type;
  Flex : Type;
  PropertiesForLeaves : Type;
  History : Type;
  Flex_apply : Flex -> Flexagon -> Flexagon + FlexError;
  Flex_createPattern : Flex -> Flexagon -> Flexagon;
  History_add : list string -> Flexagon -> History -> History;
  checkForFlexes : Flexagon -> gmap string Flex -> list string;
}.

(** The fields of [FlexagonManager]; [allFlexes] and [primeFlexes] are the
    tables the constructor obtained from [makeAllFlexes] and
    [getPrimeFlexes], read as finite maps from flex names to flexes (the
    property names every JavaScript object inherits are not flex names and
    are left out). *)
Record FlexagonManager `{Collaborators} := mkManager {
  flexagon : Flexagon;
  leafProps : PropertiesForLeaves;
  allFlexes : gmap string Flex;
  primeFlexes : gmap string Flex;
  history : History;
}.

(** Methods read and write the fields of [this]: a state monad over the
    manager. *)
Definition Method `{Collaborators} (A : Type) : Type :=
  FlexagonManager -> A * FlexagonManager.

Definition ret `{Collaborators} {A : Type} (a : A) : Method A :=
  fun this => (a, this).

Definition bind `{Collaborators} {A B : Type}
  (c : Method A) (k : A -> Method B) : Method B :=
  fun this => let '(a, this') := c this in k a this'.

Definition getThis `{Collaborators} : Method FlexagonManager :=
  fun this => (this, this).

(** [this.flexagon = f] *)
Definition setFlexagon `{Collaborators} (f : Flexagon) : Method unit :=
  fun this =>
    (tt, mkManager _ f (leafProps this) (allFlexes this) (primeFlexes this)
                   (history this)).

(** [this.history.add(flexes, f)] *)
Definition addToHistory `{Collaborators} (flexes : list string) (f : Flexagon)
  : Method unit :=
  fun this =>
    (tt, mkManager _ (flexagon this) (leafProps this) (allFlexes this)
                   (primeFlexes this) (History_add flexes f (history this))).

Declare Scope method_scope.
Delimit Scope method_scope with method.
Notation "x <- c1 ;; c2" := (bind c1 (fun x => c2))
  (at level 100, c1 at next level, right associativity) : method_scope.
Notation "c1 ;; c2" := (bind c1 (fun _ => c2))
  (at level 100, right associativity) : method_scope.

(** What a method returns that is declared [boolean | FlexError]; the
    methods below only ever return [true] or an error. *)
Inductive ApplyResult := Applied | Failed (e : FlexError).

(** [flexStr[flexStr.length - 1] === c]; on the empty string the index is
    out of range and the comparison is false. *)
Definition lastCharIs (c : ascii) (flexStr : string) : bool :=
  match String.length flexStr with
  | O => false
  | S n => match String.get n flexStr with
           | Some d => Ascii.eqb d c
           | None => false
           end
  end.

(** [flexStr.substring(0, flexStr.length - 1)] *)
Definition dropLastChar (flexStr : string) : string :=
  String.substring 0 (String.length flexStr - 1) flexStr.

Definition applyFlex `{Collaborators} (flexStr : string) : Method ApplyResult :=
  (this <- getThis ;;
   let generate := lastCharIs "+" flexStr in
   let flexName := if generate then dropLastChar flexStr else flexStr in
   match allFlexes this !! flexName with
   | None => ret (Failed (mkFlexError UnknownFlex flexName))
   | Some flex =>
       let input := if generate
                    then Flex_createPattern flex (flexagon this)
                    else flexagon this in
       match Flex_apply flex input with
       | inr _ => ret (Failed (mkFlexError CantApplyFlex flexName))
       | inl result =>
           setFlexagon result ;;
           this <- getThis ;;
           addToHistory [flexStr] (flexagon this) ;;
           ret Applied
       end
   end)%method.

(** [s.split(sep)] for a one-character separator: never an empty list. *)
Fixpoint split (sep : ascii) (s : string) : list string :=
  match s with
  | EmptyString => [EmptyString]
  | String c s' =>
      if Ascii.eqb c sep then EmptyString :: split sep s'
      else match split sep s' with
           | w :: ws => String c w :: ws
           | [] => [String c EmptyString]
           end
  end.

(** The [for] loop of [applyFlexes] over the names still to apply. *)
Fixpoint applyEach `{Collaborators} (flexNames : list string)
  : Method ApplyResult :=
  match flexNames with
  | [] => ret Applied
  | flexName :: rest =>
      (result <- applyFlex flexName ;;
       match result with
       | Failed _ => ret (Failed (mkFlexError CantApplyFlex flexName))
       | Applied => applyEach rest
       end)%method
  end.

Definition applyFlexes `{Collaborators} (flexStr : string)
  : Method ApplyResult :=
  applyEach (split " " flexStr).

(** How a call can end: with a value, or with a thrown run-time error
    (calling a method on [undefined], or handing an error object to code
    that expects a flexagon after the unchecked cast [as Flexagon]). *)
Inductive Outcome (A : Type) := Returned (a : A) | Thrown.
Arguments Returned {A} a.
Arguments Thrown {A}.

(** [flexes[name].apply(modified) as Flexagon]: the value may be an error
    object behind the cast. *)
Definition applyUnchecked `{Collaborators} (flex : option Flex)
  (modified : Outcome (Flexagon + FlexError))
  : Outcome (Flexagon + FlexError) :=
  match flex, modified with
  | Some f, Returned (inl flexagon) => Returned (Flex_apply f flexagon)
  | _, _ => Thrown
  end.

(** [rightSteps] is an integer; the loop body runs [max 0 rightSteps]
    times. *)
Definition checkForPrimeFlexes `{Collaborators} (flip : bool) (rightSteps : Z)
  : Method (Outcome (list string)) :=
  (this <- getThis ;;
   let modified := Returned (inl (flexagon this)) in
   let modified :=
     if flip then applyUnchecked (allFlexes this !! "^") modified
     else modified in
   let modified :=
     Nat.iter (Z.to_nat rightSteps)
              (applyUnchecked (allFlexes this !! ">")) modified in
   ret (match modified with
        | Returned (inl reoriented) =>
            Returned (checkForFlexes reoriented (primeFlexes this))
        | _ => Thrown
        end))%method.

(** The two ways [applyFlex] ends once the flex [flexName] has been found
    and its input chosen (lines 48 to 54); used to state its unfolding. *)
Definition applyFound `{Collaborators} (flexStr flexName : string)
  (flex : Flex) (input : Flexagon) (m : FlexagonManager)
  : ApplyResult * FlexagonManager :=
  match Flex_apply flex input with
  | inl result =>
      (Applied,
       mkManager _ result (leafProps m) (allFlexes m) (primeFlexes m)
                 (History_add [flexStr] result (history m)))
  | inr _ => (Failed (mkFlexError CantApplyFlex flexName), m)
  end.

End Manager.

(** ** The manager's constructor, face properties and undo/redo *)

Module ManagerMethods.
Import Manager.

(** The further functions of the manager's collaborators (their files are
    not part of the source tree), by the calls the manager makes:
    [makeAllFlexes], [getPrimeFlexes], the constructors of
    [PropertiesForLeaves] and [History], the face queries of a flexagon,
    the setters of the leaf properties and the moves of the history.
    [History_getCurrent] returns the [flexes] and the [flexagon] of the
    current history item.  The setters and the history moves change their
    object in place; the object is owned by the manager alone, so they are
    functions from the old object to the new one. *)
Class MethodCollaborators `{Collaborators} := {
  LeafProperties : Type;
  getPatCount : Flexagon -> Z;
  makeAllFlexes : Z -> gmap string Flex;
  getPrimeFlexes : gmap string Flex -> gmap string Flex;
  PropertiesForLeaves_new : option (list LeafProperties)
                            -> PropertiesForLeaves;
  History_new : Flexagon -> History;
  getTopIds : Flexagon -> list Z;
  getBottomIds : Flexagon -> list Z;
  setLabelProp : Z -> string -> PropertiesForLeaves -> PropertiesForLeaves;
  setColorProp : Z -> Z -> PropertiesForLeaves -> PropertiesForLeaves;
  History_getCurrent : History -> list string * Flexagon;
  History_undoAll : History -> History;
  History_undo : History -> History;
  History_redo : History -> History;
}.

Section Methods.
Context `{MethodCollaborators}.

(** The constructor, called by [makeFlexagonManager]. *)
Definition makeFlexagonManager (flexagon : Flexagon)
  (leafProps : option (list LeafProperties)) : FlexagonManager :=
  let allFlexes := makeAllFlexes (getPatCount flexagon) in
  mkManager _ flexagon (PropertiesForLeaves_new leafProps) allFlexes
            (getPrimeFlexes allFlexes) (History_new flexagon).

(** [this.leafProps.set...Prop(id, ...)] for each id of the list. *)
Definition setEach (set : Z -> PropertiesForLeaves -> PropertiesForLeaves)
  (ids : list Z) : Method unit :=
  fun this =>
    (tt, mkManager _ (flexagon this)
                   (fold_left (fun props id => set id props) ids
                              (leafProps this))
                   (allFlexes this) (primeFlexes this) (history this)).

Definition setFaceLabel (label : string) (front : bool) : Method unit :=
  (this <- getThis ;;
   let ids := if front then getTopIds (flexagon this)
              else getBottomIds (flexagon this) in
   setEach (fun id => setLabelProp id label) ids)%method.

Definition setFaceColor (color : Z) (front : bool) : Method unit :=
  (this <- getThis ;;
   let ids := if front then getTopIds (flexagon this)
              else getBottomIds (flexagon this) in
   setEach (fun id => setColorProp id color) ids)%method.

Definition getFlexHistory : Method (list string) :=
  (this <- getThis ;;
   ret (fst (History_getCurrent (history this))))%method.

(** [this.history.<move>()] *)
Definition moveHistory (move : History -> History) : Method unit :=
  fun this =>
    (tt, mkManager _ (flexagon this) (leafProps this) (allFlexes this)
                   (primeFlexes this) (move (history this))).

(** [this.flexagon = this.history.getCurrent().flexagon] *)
Definition restoreCurrent : Method unit :=
  (this <- getThis ;;
   setFlexagon (snd (History_getCurrent (history this))))%method.

Definition undoAll : Method unit :=
  (moveHistory History_undoAll ;; restoreCurrent)%method.

Definition undo : Method unit :=
  (moveHistory History_undo ;; restoreCurrent)%method.

Definition redo : Method unit :=
  (moveHistory History_redo ;; restoreCurrent)%method.

(** The current flexagon is the flexagon of the current history item. *)
Definition inSync (this : FlexagonManager) : Prop :=
  flexagon this = snd (History_getCurrent (history this)).

End Methods.

End ManagerMethods.

(** ** A concrete manager *)

Module ManagerExample.
Import Pats Manager.

(** A flex as the manager uses it: an object with the methods [apply] and
    [createPattern]. *)
Record FlexObject := mkFlexObject {
  applyMethod : Pats.Flexagon -> Pats.Flexagon + FlexError;
  createPatternMethod : Pats.Flexagon -> Pats.Flexagon;
}.

(** Modelled from the spec: the flex ">" ("rotate-right"), which applies to
    every non-empty ring. *)
Definition shiftRight : FlexObject :=
  mkFlexObject
    (fun f => match f with
              | [] => inr (mkFlexError CantApplyFlex ">")
              | _ => inl (rotateRight f)
              end)
    (fun f => f).

(** Modelled from the spec: the flex "^" ("turn-over"). *)
Definition turnOverFlex : FlexObject :=
  mkFlexObject (fun f => inl (turnOver f)) (fun f => f).

(** Modelled from the spec: History (src/flex/History.ts is not part of
    the source tree): "a linear history (undo/redo) of (flexNamesApplied,
    resultingFlexagon) steps", "a sequence of snapshots with a cursor",
    where a new action discards the redo tail. *)
Record HistoryItem := mkHistoryItem {
  flexes : list string;
  snapshot : Pats.Flexagon;
}.

Record LinearHistory := mkHistory {
  items : list HistoryItem;
  cursor : nat;
}.

Definition newHistory (original : Pats.Flexagon) : LinearHistory :=
  mkHistory [mkHistoryItem [] original] 0.

Definition addItem (newFlexes : list string) (f : Pats.Flexagon)
  (h : LinearHistory) : LinearHistory :=
  mkHistory (firstn (S (cursor h)) (items h) ++ [mkHistoryItem newFlexes f])
            (S (cursor h)).

Definition historyLength (h : LinearHistory) : nat := length (items h).

(** Modelled from the spec: [checkForFlexes] lists the flexes of the table
    that apply to the flexagon. *)
Definition applicable (f : Pats.Flexagon) (table : gmap string FlexObject)
  : list string :=
  List.map fst (List.filter (fun kv => match applyMethod (snd kv) f with
                                  | inl _ => true
                                  | inr _ => false
                                  end) (map_to_list table)).

#[export] Instance exampleCollaborators : Collaborators := {|
  Manager.Flexagon := Pats.Flexagon;
  Flex := FlexObject;
  PropertiesForLeaves := unit;
  History := LinearHistory;
  Flex_apply := applyMethod;
  Flex_createPattern := createPatternMethod;
  History_add := addItem;
  checkForFlexes := applicable;
|}.

Definition square : Pats.Flexagon := [Leaf 1; Leaf 2; Leaf 3; Leaf 4].

Definition rotationsOnly : gmap string FlexObject :=
  <[ ">" := shiftRight ]> (<[ "^" := turnOverFlex ]> ∅).

(** A manager on the ring [1,2,3,4] whose flex set holds ">" and "^". *)
Definition squareManager : FlexagonManager :=
  mkManager _ square tt rotationsOnly ∅ (newHistory square).

End ManagerExample.

Module ManagerMethodsExample.
Import Pats Manager ManagerMethods ManagerExample.

(** Modelled from the spec: the linear history with its moves, "a sequence
    of snapshots with a cursor": the items before the current one (nearest
    first), the current item and the items after it; "undo/redo move a
    cursor; undoAll resets the cursor to the start", and a new item
    discards the items after the current one. *)
Record CursorHistory := mkCursorHistory {
  before : list HistoryItem;
  current : HistoryItem;
  after : list HistoryItem;
}.

Definition startHistory (original : Pats.Flexagon) : CursorHistory :=
  mkCursorHistory [] (mkHistoryItem [] original) [].

Definition addAtCursor (newFlexes : list string) (f : Pats.Flexagon)
  (h : CursorHistory) : CursorHistory :=
  mkCursorHistory (current h :: before h) (mkHistoryItem newFlexes f) [].

Definition currentItem (h : CursorHistory) : list string * Pats.Flexagon :=
  (flexes (current h), snapshot (current h)).

Definition undoItem (h : CursorHistory) : CursorHistory :=
  match before h with
  | previous :: earlier =>
      mkCursorHistory earlier previous (current h :: after h)
  | [] => h
  end.

Definition redoItem (h : CursorHistory) : CursorHistory :=
  match after h with
  | next :: later => mkCursorHistory (current h :: before h) next later
  | [] => h
  end.

Definition undoAllItems (h : CursorHistory) : CursorHistory :=
  Nat.iter (length (before h)) undoItem h.

(** Modelled from the spec: the id of the leaf on the top of a pat, and on
    its bottom. *)
Fixpoint topId (t : LeafTree) : Z :=
  match t with
  | Leaf id => id
  | Group ts => match ts with
                | first :: _ => topId first
                | [] => 0
                end
  end.

Definition bottomId (t : LeafTree) : Z := Z.opp (topId (flipPat t)).

(** The collaborators of [ManagerExample] around this history. *)
Definition cursorCollaborators : Collaborators := {|
  Manager.Flexagon := Pats.Flexagon;
  Flex := FlexObject;
  PropertiesForLeaves := unit;
  History := CursorHistory;
  Flex_apply := applyMethod;
  Flex_createPattern := createPatternMethod;
  History_add := addAtCursor;
  checkForFlexes := applicable;
|}.

Definition cursorMethodCollaborators
  : @MethodCollaborators cursorCollaborators :=
  @Build_MethodCollaborators cursorCollaborators
    unit                                         (* LeafProperties *)
    (fun f : Pats.Flexagon => Z.of_nat (length f))  (* getPatCount *)
    (fun _ => rotationsOnly)                     (* makeAllFlexes *)
    (fun _ => (∅ : gmap string FlexObject))      (* getPrimeFlexes *)
    (fun _ => tt)                                (* PropertiesForLeaves *)
    startHistory                                 (* History *)
    (List.map topId) (List.map bottomId)
    (fun _ _ props => props) (fun _ _ props => props)
    currentItem undoAllItems undoItem redoItem.

(** The manager that [makeFlexagonManager] builds on the ring [1,2,3,4]. *)
Definition cursorManager : @FlexagonManager cursorCollaborators :=
  @makeFlexagonManager cursorCollaborators cursorMethodCollaborators
                       square None.

End ManagerMethodsExample.

(** ** From the pieces of a name to a script *)

Module NameScript.
Import Pats.

(** A number that the code reads from its tables or writes as an integer
    literal is kept as an integer; the result of a division is a double,
    as every JavaScript number is.  [toNumber] is the double of a small
    natural number. *)
Definition toNumber (z : Z) : float := PrimFloat.of_uint63 (Uint63.of_Z z).

(** [ScriptItem] and [NamePieces] are declared outside the source tree;
    the records hold the fields that the conversion writes and reads, all
    of them optional.  The elements of a [pats] array are not looked at,
    only their number is. *)
Record ScriptItem := mkScriptItem {
  numPats : option Z;
  angles : option (list float);
  directions : option (list bool);
  pats : option (list LeafTree);
  flexes : option string;
}.

(** [{}] *)
Definition emptyItem : ScriptItem := mkScriptItem None None None None None.

(** The field [pats] of [NamePieces] is [namePats] here. *)
Record NamePieces := mkNamePieces {
  overallShape : option string;
  leafShape : option string;
  patsPrefix : option string;
  namePats : option (list LeafTree);
  generator : option string;
  pinchFaces : option string;
}.

Inductive NameError :=
| UnknownPatsPrefix              (* 'unknown patsPrefix' *)
| UnrecognizedOverallShape       (* 'unrecognized overall shape' *)
| UnknownLeafShape               (* 'unknown leafShape' *)
| NeedAtLeast2PinchFaces         (* 'need at least 2 pinch faces' *)
| WarningMultiplePossibilities
    (* 'warning: there are multiple possibilities for pinch face count' *)
| MissingNumberOfPats            (* 'missing the number of pats' *)
| CountsDiffer
    (* 'numPats, pats, and directions should represent the same count' *).

Record NamePiecesError := mkNamePiecesError {
  nameError : NameError;
  propValue : option string;
}.

(** [ScriptItem | ScriptItem[] | NamePiecesError | null]: what the
    conversions return and [InfoStorer.add] takes. *)
Inductive Addable :=
| Item (item : ScriptItem)
| Items (items : list ScriptItem)
| Problem (error : NamePiecesError)
| Null.

(** [isNamePiecesError]: a value that is not null and has a [nameError]. *)
Definition isNamePiecesError (result : Addable) : bool :=
  match result with
  | Problem _ => true
  | _ => false
  end.

(** An optional string in a condition: undefined and the empty string
    count as false.  [truthy] gives the string when it counts as true. *)
Definition truthy (field : option string) : option string :=
  match field with
  | Some s => if String.eqb s "" then None else Some s
  | None => None
  end.

(** [field && field.startsWith(start)] *)
Definition truthyStartsWith (field : option string) (start : string) : bool :=
  match truthy field with
  | Some s => String.prefix start s
  | None => false
  end.

(** [s.endsWith(ending)] *)
Definition endsWith (s ending : string) : bool :=
  (String.length ending <=? String.length s)%nat
  && String.eqb (String.substring (String.length s - String.length ending)
                                  (String.length ending) s) ending.

(** The [switch] of [greekPrefixToNumber], case by case. *)
Definition greekPrefixes : list (string * Z) :=
  [ ("di", 2); ("tri", 3); ("tetra", 4); ("penta", 5); ("hexa", 6);
    ("hepta", 7); ("octa", 8); ("ennea", 9); ("deca", 10);
    ("hendeca", 11); ("dodeca", 12); ("trideca", 13); ("tetradeca", 14);
    ("pentadeca", 15); ("hexadeca", 16); ("heptadeca", 17);
    ("octadeca", 18); ("enneadeca", 19); ("icosa", 20);
    ("icosihena", 21); ("icosidi", 22); ("icositri", 23);
    ("icositetra", 24) ]%Z.

Definition greekPrefixToNumber (prefix : string) : option Z :=
  match List.find (fun entry => String.eqb prefix (fst entry)) greekPrefixes with
  | Some entry => Some (snd entry)
  | None => None
  end.

(** The [if ... else if] chain of [adjectiveToNumber], test by test. *)
Definition adjectives : list (string * Z) :=
  [ ("triangular", 3); ("square", 4); ("pentagonal", 5); ("hexagonal", 6);
    ("heptagonal", 7); ("octagonal", 8); ("enneagonal", 9);
    ("decagonal", 10); ("hendecagonal", 11); ("dodecagonal", 12);
    ("tridecagonal", 13); ("tetradecagonal", 14); ("pentadecagonal", 15);
    ("hexadecagonal", 16) ]%Z.

Definition adjectiveToNumber (adj : string) : option Z :=
  match List.find (fun entry => String.prefix (fst entry) adj) adjectives with
  | Some entry => Some (snd entry)
  | None => None
  end.

(** A loop that runs [step] until it gives a result, for at most [fuel]
    rounds; [inr] is the state of a loop that has not ended by then. *)
Fixpoint loopFor {State Result : Type} (step : State -> Result + State)
  (fuel : positive) (s : State) : Result + State :=
  match fuel with
  | xH => step s
  | xO half =>
      match loopFor step half s with
      | inl r => inl r
      | inr s' => loopFor step half s'
      end
  | xI half =>
      match step s with
      | inl r => inl r
      | inr s' =>
          match loopFor step half s' with
          | inl r => inl r
          | inr s'' => loopFor step half s''
          end
      end
  end.

(** [repeat]: [for (let i = 0; i < n; i++) { r = r.concat(a); }] with the
    counter [i] a double like [n].  A loop that is still running after
    2^54 rounds never ends (from 2^53 on, [i++] leaves [i] as it is);
    [None] stands for that. *)
Definition repeat (a : list bool) (n : float) : option (list bool) :=
  match loopFor (fun st : float * list bool =>
                   let '(i, r) := st in
                   if (i <? n)%float then inr ((i + 1)%float, r ++ a)
                   else inl r)
                (2 ^ 54)%positive (0%float, []) with
  | inl r => Some r
  | inr _ => None
  end.

(** ['P*'.repeat(count)] *)
Fixpoint repeatString (s : string) (count : nat) : string :=
  match count with
  | O => ""
  | S count' => s +:+ repeatString s count'
  end.

Definition patsPrefixToScript (patsPrefix : string) : Addable :=
  match greekPrefixToNumber patsPrefix with
  | None => Problem (mkNamePiecesError UnknownPatsPrefix (Some patsPrefix))
  | Some n => Item (mkScriptItem (Some n) None None None None)
  end.

(** [{ angles: [a, b] }] and [{ directions }] *)
Definition anglesItem (a b : float) : ScriptItem :=
  mkScriptItem None (Some [a; b]) None None None.

Definition directionsItem (directions : list bool) : ScriptItem :=
  mkScriptItem None None (Some directions) None None.

(** [[{ angles: [a, b] }, { directions }]] once the loop of [repeat] has
    ended. *)
Definition anglesAndDirections (a b : float)
  (directions : option (list bool)) : option Addable :=
  match directions with
  | Some d => Some (Items [anglesItem a b; directionsItem d])
  | None => None
  end.

Definition computeRing1Script (n : Z) : option Addable :=
  let n := toNumber n in
  let sides := (2 * n / 3)%float in
  let total := ((sides - 2) * 180)%float in
  let a := ((total - 180 * n) / (sides - 2 * n))%float in
  let directions := repeat [true; false; true] (n / 3)%float in
  anglesAndDirections a (180 - 2 * a)%float directions.

Definition computeRing2Script (n : Z) : option Addable :=
  let n := toNumber n in
  let sides := (n / 4)%float in
  let a := (180 * (sides - 2) / (4 * sides))%float in
  let directions := repeat [true; false; false; true] (n / 4)%float in
  anglesAndDirections (90 - a)%float a directions.

Definition computeRing3Script (n : Z) : option Addable :=
  let n := toNumber n in
  let sides := (n / 4)%float in
  let a := (((180 * (sides - 2)) / sides) / 3)%float in
  let directions := repeat [true; false; false; true] (n / 4)%float in
  anglesAndDirections ((180 - a) / 2)%float a directions.

(** [sides !== null && sides >= least && sides === quotient] *)
Definition sidesAre (sides : option Z) (least : Z) (quotient : float) : bool :=
  match sides with
  | Some sd => (least <=? sd)%Z && (toNumber sd =? quotient)%float
  | None => false
  end.

(** [overallShapeToScript]; a test that fails falls through to the next
    one, so the tests are bound from the last to the first.  [None]: a
    loop of [repeat] that does not end. *)
Definition overallShapeToScript (overallShape patsPrefix : string)
  (leafShape : option string) : option Addable :=
  match greekPrefixToNumber patsPrefix with
  | None => Some (Problem (mkNamePiecesError MissingNumberOfPats None))
  | Some n =>
      let sides := adjectiveToNumber overallShape in
      let unrecognized :=
        Some (Problem (mkNamePiecesError UnrecognizedOverallShape
                         (Some (overallShape +:+ " " +:+ patsPrefix)))) in
      let rightTriangles :=
        if sidesAre sides 3 (toNumber n / 2)%float
        then Some (Items [anglesItem (360 / toNumber n)%float 90])
        else unrecognized in
      let rhombic :=
        if String.eqb overallShape "rhombic" && (n =? 16)%Z
        then anglesAndDirections 30 90
               (repeat [true; true; false; true; true; false; true; true] 2)
        else rightTriangles in
      let rings :=
        if endsWith overallShape "ring"
        then if sidesAre sides 8 (2 * toNumber n / 3)%float
             then computeRing1Script n
             else if sidesAre sides 3 (toNumber n / 4)%float
             then computeRing2Script n
             else if sidesAre sides 6 (toNumber n / 2)%float
                     && truthyStartsWith leafShape "isosceles"
             then computeRing3Script n
             else rhombic
        else rhombic in
      let stars :=
        if String.eqb overallShape "star"
           && ((Z.rem n 2 =? 0)%Z && (6 <=? n)%Z)
        then Some (Items
                     [if (n =? 6)%Z then anglesItem 60 15
                      else if (n =? 8)%Z then anglesItem 45 30
                      else anglesItem (360 / toNumber n)%float
                                      (360 / toNumber n)%float])
        else rings in
      if match sides with Some sd => (sd =? 6)%Z | None => false end
         && truthyStartsWith leafShape "silver"
      then if (n =? 12)%Z
           then anglesAndDirections 45 90 (repeat [false; true; true] 4)
           else if (n =? 14)%Z
           then anglesAndDirections 90 45
                  (repeat [true; false; true; true; true; true; false] 2)
           else stars
      else stars
  end.

(** [leafShapeToScript]: the orientations that need the number of pats
    first, then the leaf shape by itself. *)
Definition leafShapeToScript (leafShape : string)
  (patsPrefix : option string) : Addable :=
  let starts := fun start => String.prefix start leafShape in
  let byItself :=
    if String.eqb leafShape "triangle"
       || String.eqb leafShape "equilateral triangle"
    then Item (anglesItem 60 60)
    else if String.eqb leafShape "silver"
            || String.eqb leafShape "silver triangle"
    then Item (anglesItem 45 45)
    else if String.eqb leafShape "bronze"
            || String.eqb leafShape "bronze triangle"
    then Item (anglesItem 30 60)
    else if String.eqb leafShape "right"
            || String.eqb leafShape "right triangle"
            || String.eqb leafShape "isosceles"
            || String.eqb leafShape "isosceles triangle"
    then Item emptyItem
    else Problem (mkNamePiecesError UnknownLeafShape (Some leafShape)) in
  match truthy patsPrefix with
  | Some prefix =>
      let n := greekPrefixToNumber prefix in
      let isN (v : Z) :=
        match n with Some m => (m =? v)%Z | None => false end in
      if (starts "silver" || starts "right") && isN 4%Z
      then Item (anglesItem 90 45)
      else if (starts "bronze" || starts "right") && isN 6%Z
      then Item (anglesItem 60 90)
      else if (starts "silver" || starts "right") && isN 8%Z
      then Item (anglesItem 45 90)
      else if (starts "bronze" || starts "right") && isN 12%Z
      then Item (anglesItem 30 90)
      else match n with
           | Some m =>
               if starts "right" && (Z.rem m 2 =? 0)%Z
               then Item (anglesItem (360 / toNumber m)%float 90)
               else byItself
           | None => byItself
           end
  | None => byItself
  end.

(** [{ flexes: ... }] *)
Definition flexesItem (flexes : string) : ScriptItem :=
  mkScriptItem None None None None (Some flexes).

Definition multiplePossibilities (pinchFaces : string) : NamePiecesError :=
  mkNamePiecesError WarningMultiplePossibilities (Some pinchFaces).

(** [pinchFacesToScript] returns the pair [[script, error]]. *)
Definition pinchFacesToScript (pinchFaces : string) : Addable * Addable :=
  match greekPrefixToNumber pinchFaces with
  | None =>
      (Null, Problem (mkNamePiecesError NeedAtLeast2PinchFaces
                        (Some pinchFaces)))
  | Some n =>
      if (n <? 2)%Z
      then (Null, Problem (mkNamePiecesError NeedAtLeast2PinchFaces
                             (Some pinchFaces)))
      else if (n =? 2)%Z then (Null, Null)
      else if (n <? 6)%Z
      then (Item (flexesItem (repeatString "P*" (Z.to_nat (n - 2)))), Null)
      else if (n =? 6)%Z
      then (Item (flexesItem "P* P* P+ > P P*"),
            Problem (multiplePossibilities pinchFaces))
      else (Item (flexesItem (repeatString "P*" (Z.to_nat (n - 2)))),
            Problem (multiplePossibilities pinchFaces))
  end.

(** [script.filter(item => item.field !== undefined)] *)
Definition withField {A : Type} (field : ScriptItem -> option A)
  (script : list ScriptItem) : list ScriptItem :=
  List.filter (fun item => match field item with
                           | Some _ => true
                           | None => false
                           end) script.

Definition countsDiffer : Addable :=
  Problem (mkNamePiecesError CountsDiffer None).

(** [validateScript]: [a], [b] and [c] are the number of pats that the
    first item with [numPats], with [pats] and with [directions] stands
    for, or 0. *)
Definition validateScript (script : list ScriptItem) : Addable :=
  let numPatsItems := withField numPats script in
  let patsItems := withField pats script in
  match numPatsItems, patsItems with
  | [], [] => Problem (mkNamePiecesError MissingNumberOfPats None)
  | _, _ =>
      let directionsItems := withField directions script in
      let a := match numPatsItems with
               | [] => 0%Z
               | first :: _ =>
                   match numPats first with
                   | Some count => if (count =? 0)%Z then 0%Z else count
                   | None => 0%Z
                   end
               end in
      let b := match patsItems with
               | [] => 0%Z
               | first :: _ =>
                   match pats first with
                   | Some patsArray => Z.of_nat (length patsArray)
                   | None => 0%Z
                   end
               end in
      let c := match directionsItems with
               | [] => 0%Z
               | first :: _ =>
                   match directions first with
                   | Some directionsArray =>
                       Z.of_nat (length directionsArray)
                   | None => 0%Z
                   end
               end in
      let differ (x y : Z) :=
        negb (x =? 0)%Z && negb (y =? 0)%Z && negb (x =? y)%Z in
      if differ a b then countsDiffer
      else if differ a c then countsDiffer
      else if differ b c then countsDiffer
      else Null
  end.

(** [InfoStorer]: the script and the errors gathered so far. *)
Record InfoStorer := mkInfoStorer {
  script : list ScriptItem;
  errors : list NamePiecesError;
}.

Definition newInfoStorer : InfoStorer := mkInfoStorer [] [].

Definition add (item : Addable) (info : InfoStorer) : InfoStorer :=
  match item with
  | Null => info
  | Problem error => mkInfoStorer (script info) (errors info ++ [error])
  | Items items => mkInfoStorer (script info ++ items) (errors info)
  | Item item => mkInfoStorer (script info ++ [item]) (errors info)
  end.

(** The steps of [namePiecesToScript] after the overall shape: pats,
    generator or pinch faces, and the final validation. *)
Definition finishScript (name : NamePieces) (info : InfoStorer)
  : list ScriptItem * list NamePiecesError :=
  let info :=
    match namePats name with
    | Some patsArray =>
        add (Item (mkScriptItem None None None (Some patsArray) None)) info
    | None => info
    end in
  let info :=
    match truthy (generator name) with
    | Some flexes => add (Item (flexesItem flexes)) info
    | None =>
        match truthy (pinchFaces name) with
        | Some faces =>
            let '(script, error) := pinchFacesToScript faces in
            add error (add script info)
        | None => info
        end
    end in
  let info :=
    match errors info with
    | [] => add (validateScript (script info)) info
    | _ => info
    end in
  (script info, errors info).

(** [namePiecesToScript]; [None] when a loop of [repeat] does not end. *)
Definition namePiecesToScript (name : NamePieces)
  : option (list ScriptItem * list NamePiecesError) :=
  let info := newInfoStorer in
  let info :=
    match truthy (patsPrefix name) with
    | Some prefix => add (patsPrefixToScript prefix) info
    | None => info
    end in
  let info :=
    match truthy (leafShape name) with
    | Some shape => add (leafShapeToScript shape (patsPrefix name)) info
    | None => info
    end in
  match truthy (overallShape name), truthy (patsPrefix name) with
  | Some shape, Some prefix =>
      match overallShapeToScript shape prefix (leafShape name) with
      | Some item => Some (finishScript name (add item info))
      | None => None
      end
  | _, _ => Some (finishScript name info)
  end.

(** What [overallShapeToScript] returns when the prefix is known: it
    always returns, and with directions only in the last of the three
    forms. *)
Inductive shapeResult (overallShape patsPrefix : string)
  (leafShape : option string) (n : Z) : Addable -> Prop :=
| shape_unrecognized :
    shapeResult overallShape patsPrefix leafShape n
      (Problem (mkNamePiecesError UnrecognizedOverallShape
                  (Some (overallShape +:+ " " +:+ patsPrefix))))
| shape_angles (a b : float) :
    shapeResult overallShape patsPrefix leafShape n (Items [anglesItem a b])
| shape_directions (a b : float) (d : list bool) :
    Z.of_nat (length d) = n ->
    shapeResult overallShape patsPrefix leafShape n
      (Items [anglesItem a b; directionsItem d])
| shape_too_many_directions (a b : float) (d : list bool) :
    Z.of_nat (length d) = (n + 2)%Z ->
    (n mod 4 = 2)%Z ->
    endsWith overallShape "ring" = true ->
    truthyStartsWith leafShape "isosceles" = true ->
    adjectiveToNumber overallShape = Some (n / 2)%Z ->
    shapeResult overallShape patsPrefix leafShape n
      (Items [anglesItem a b; directionsItem d]).

End NameScript.

(* ===================================================================== *)
(** * Part II: properties                                                 *)
(* ===================================================================== *)

Section ConsolidateProps.
Import Consolidate.

Lemma copyAcross_id (l : list string) : copyAcross l = l.
Proof.
  unfold copyAcross.
  assert (G : forall acc, fold_left (fun a f => a ++ [f]) l acc = acc ++ l).
  { induction l as [|x l IH]; intros acc; simpl.
    - now rewrite app_nil_r.
    - rewrite IH, <- app_assoc. reflexivity. }
  apply G.
Qed.

Lemma redundant_spec (flex last : string) :
  redundant flex last = true <-> inversePair last flex.
Proof.
  unfold redundant. split.
  - intros H.
    repeat (apply orb_prop in H; destruct H as [H|H]);
      apply andb_prop in H; destruct H as [H1 H2];
      apply String.eqb_eq in H1, H2; subst; constructor.
  - intros H; destruct H; reflexivity.
Qed.

Lemma addStep_settled (new acc : list string) :
  fold_left addStep new (acc, false) = (acc ++ new, false).
Proof.
  revert acc; induction new as [|f new IH]; intros acc; simpl.
  - now rewrite app_nil_r.
  - rewrite IH, <- app_assoc. reflexivity.
Qed.

Lemma lastOrEmpty_snoc (l : list string) (x : string) :
  lastOrEmpty (l ++ [x]) = x.
Proof.
  unfold lastOrEmpty. destruct (l ++ [x]) eqn:E.
  - destruct l; discriminate.
  - rewrite <- E. apply last_last.
Qed.

Lemma redundant_empty (flex : string) : redundant flex "" = false.
Proof.
  unfold redundant.
  replace (String.eqb "" ">") with false by reflexivity.
  replace (String.eqb "" "<") with false by reflexivity.
  replace (String.eqb "" "^") with false by reflexivity.
  now rewrite !andb_false_r.
Qed.

(** The shape of the loop's result from any intermediate list [acc]
    while [start] is still set. *)
Lemma addStep_junction (new acc : list string) :
  exists k : nat,
    k <= length acc /\ k <= length new
    /\ fst (fold_left addStep new (acc, true))
       = firstn (length acc - k) acc ++ skipn k new
    /\ (forall i, i < k ->
          inversePair (nth (length acc - 1 - i) acc "") (nth i new ""))
    /\ (k < length acc -> k < length new ->
          ~ inversePair (nth (length acc - 1 - k) acc "") (nth k new "")).
Proof.
  revert acc; induction new as [|f new IH]; intros acc.
  - exists 0. simpl. rewrite Nat.sub_0_r, firstn_all, app_nil_r.
    repeat split; try lia.
  - simpl fold_left.
    destruct (redundant f (lastOrEmpty acc)) eqn:R.
    + (* the junction pair cancels: pop and go on *)
      destruct (exists_last (l := acc)) as [acc' [l ->]].
      { intros ->. simpl in R. rewrite redundant_empty in R. discriminate. }
      rewrite lastOrEmpty_snoc in R. apply redundant_spec in R.
      rewrite removelast_last.
      destruct (IH acc') as [k (Hk1 & Hk2 & Hres & Hpairs & Hstop)].
      exists (S k). rewrite !length_app. simpl length.
      split; [lia|]. split; [lia|]. split; [|split].
      * rewrite Hres. simpl skipn.
        replace (length acc' + 1 - S k) with (length acc' - k) by lia.
        rewrite firstn_app.
        replace (length acc' - k - length acc') with 0 by lia.
        simpl. now rewrite app_nil_r.
      * intros i Hi. destruct i as [|i].
        -- replace (length acc' + 1 - 1 - 0) with (length acc') by lia.
           rewrite app_nth2, Nat.sub_diag by lia. exact R.
        -- simpl nth at 2.
           replace (length acc' + 1 - 1 - S i) with (length acc' - 1 - i) by lia.
           rewrite app_nth1 by lia. apply Hpairs. lia.
      * intros H1 H2.
        replace (length acc' + 1 - 1 - S k) with (length acc' - 1 - k) by lia.
        rewrite app_nth1 by lia. simpl nth. apply Hstop; lia.
    + (* no cancellation: everything else is appended as it is *)
      rewrite addStep_settled. exists 0. simpl.
      rewrite Nat.sub_0_r, firstn_all.
      split; [lia|]. split; [lia|]. split; [now rewrite <- app_assoc|].
      split; [intros i Hi; lia|].
      intros H1 _ HP. apply redundant_spec in HP.
      destruct (exists_last (l := acc)) as [acc' [l ->]].
      { intros ->. simpl in H1. lia. }
      rewrite lastOrEmpty_snoc in R.
      rewrite length_app in HP. simpl length in HP.
      replace (length acc' + 1 - 1 - 0) with (length acc') in HP by lia.
      rewrite app_nth2, Nat.sub_diag in HP by lia. simpl in HP.
      congruence.
Qed.

(** C10: [addAndConsolidate oldFlexes newFlexes] is [oldFlexes] without
    its last [k] elements followed by [newFlexes] without its first [k]
    elements, for some [k >= 0]; each of the [k] cancelled junction pairs
    (the [i]-th element from the end of the old list, the [i]-th new
    element) is one of ('>','<'), ('<','>'), ('^','^'); and cancellation
    stops at the first new element that does not cancel, after which all
    remaining new elements are appended unchanged -- adjacent inverse
    pairs further inside the new list are kept. *)
Theorem addAndConsolidate_junction (oldFlexes newFlexes : list string) :
  (exists k : nat,
    k <= length oldFlexes /\ k <= length newFlexes
    /\ addAndConsolidate oldFlexes newFlexes
       = firstn (length oldFlexes - k) oldFlexes ++ skipn k newFlexes
    /\ (forall i, i < k ->
          inversePair (nth (length oldFlexes - 1 - i) oldFlexes "")
                      (nth i newFlexes ""))
    /\ (k < length oldFlexes -> k < length newFlexes ->
          ~ inversePair (nth (length oldFlexes - 1 - k) oldFlexes "")
                        (nth k newFlexes "")))
  /\ addAndConsolidate ["P"] ["S"; ">"; "<"] = ["P"; "S"; ">"; "<"]
  /\ addAndConsolidate ["P"; ">"] ["<"; ">"; "<"] = ["P"; ">"; "<"].
Proof.
  split; [|split; reflexivity].
  unfold addAndConsolidate. rewrite copyAcross_id.
  apply addStep_junction.
Qed.

End ConsolidateProps.

Section ConsolidateMore.
Import Consolidate Rotates.

Lemma addStep_first_kept (flex : string) (rest acc : list string) :
  redundant flex (lastOrEmpty acc) = false ->
  fst (fold_left addStep (flex :: rest) (acc, true)) = acc ++ flex :: rest.
Proof.
  intros R. simpl fold_left. rewrite R, addStep_settled.
  simpl. now rewrite <- app_assoc.
Qed.

Lemma addStep_first_cancelled (flex last : string) (rest acc : list string) :
  redundant flex last = true ->
  fold_left addStep (flex :: rest) (acc ++ [last], true)
  = fold_left addStep rest (acc, true).
Proof.
  intros R. simpl fold_left.
  now rewrite lastOrEmpty_snoc, R, removelast_last.
Qed.

Lemma redundant_undoRotate (flex : string) :
  isRotate flex = true -> redundant (undoRotate flex) flex = true.
Proof.
  unfold isRotate. intros Hr.
  destruct (String.eqb flex "<") eqn:E1;
    [apply String.eqb_eq in E1; now subst|].
  destruct (String.eqb flex ">") eqn:E2;
    [apply String.eqb_eq in E2; now subst|].
  destruct (String.eqb flex "^") eqn:E3;
    [apply String.eqb_eq in E3; now subst|].
  discriminate.
Qed.

(** X8: when nothing cancels where the two lists meet, the result is the
    plain concatenation: for an empty new list, for an empty old list, and
    whenever the first new flex is not the inverse of the last old one. *)
Theorem addAndConsolidate_concatenates :
  (forall oldFlexes, addAndConsolidate oldFlexes [] = oldFlexes)
  /\ (forall newFlexes, addAndConsolidate [] newFlexes = newFlexes)
  /\ (forall oldFlexes flex rest,
        ~ inversePair (lastOrEmpty oldFlexes) flex ->
        addAndConsolidate oldFlexes (flex :: rest)
        = oldFlexes ++ flex :: rest).
Proof.
  unfold addAndConsolidate. repeat apply conj.
  - intros oldFlexes. simpl. apply copyAcross_id.
  - intros [|flex rest]; [reflexivity|].
    rewrite copyAcross_id. apply addStep_first_kept, redundant_empty.
  - intros oldFlexes flex rest Hno. rewrite copyAcross_id.
    apply addStep_first_kept.
    destruct (redundant flex (lastOrEmpty oldFlexes)) eqn:R; [|reflexivity].
    now apply redundant_spec in R.
Qed.

(** X9: the result is never longer than the two lists together, and what
    is missing is an even number of flexes: [k] from the end of the old
    list and [k] from the start of the new one. *)
Theorem addAndConsolidate_length (oldFlexes newFlexes : list string) :
  exists k : nat,
    k <= length oldFlexes /\ k <= length newFlexes
    /\ length (addAndConsolidate oldFlexes newFlexes) + 2 * k
       = length oldFlexes + length newFlexes.
Proof.
  unfold addAndConsolidate. rewrite copyAcross_id.
  destruct (addStep_junction newFlexes oldFlexes)
    as [k (Hk1 & Hk2 & Hres & _)].
  exists k. split; [exact Hk1|]. split; [exact Hk2|].
  rewrite Hres, length_app, length_firstn, length_skipn. lia.
Qed.

(** X10: taking rotates back leaves no trace: when the old list ends with
    a run of rotates and the new list starts with the sequence that undoes
    that run, both runs disappear, and the rest is consolidated as if they
    had never been there.  In particular a list of rotates followed by its
    undoing gives the empty list. *)
Theorem addAndConsolidate_undoes_rotates
  (oldFlexes rotates newFlexes : list string) :
  forallb isRotate rotates = true ->
  addAndConsolidate (oldFlexes ++ rotates) (undoRotates rotates ++ newFlexes)
  = addAndConsolidate oldFlexes newFlexes
  /\ addAndConsolidate rotates (undoRotates rotates) = [].
Proof.
  intros Hall.
  assert (G : forall old new,
             addAndConsolidate (old ++ rotates) (undoRotates rotates ++ new)
             = addAndConsolidate old new).
  { intros old new. unfold addAndConsolidate. rewrite !copyAcross_id.
    f_equal. revert Hall.
    induction rotates as [|x xs IH] using rev_ind; intros Hall.
    - now rewrite app_nil_r.
    - rewrite forallb_app in Hall. apply andb_prop in Hall.
      destruct Hall as [Hxs Hx]. simpl in Hx. rewrite andb_true_r in Hx.
      unfold undoRotates. rewrite map_app, rev_app_distr.
      change (rev (List.map undoRotate [x])) with [undoRotate x].
      rewrite (app_assoc old xs [x]).
      change (([undoRotate x] ++ rev (List.map undoRotate xs)) ++ new)
        with (undoRotate x :: (undoRotates xs ++ new)).
      rewrite (addStep_first_cancelled (undoRotate x) x)
        by now apply redundant_undoRotate.
      apply IH, Hxs. }
  split; [apply G|].
  specialize (G [] []). rewrite app_nil_r in G. simpl in G. exact G.
Qed.

(** [addAndConsolidate_undoes_rotates] at work: "P > ^" followed by
    "^ < S". *)
Lemma addAndConsolidate_undoes_rotates_witness :
  addAndConsolidate (["P"] ++ [">"; "^"]) (undoRotates [">"; "^"] ++ ["S"])
  = addAndConsolidate ["P"] ["S"]
  /\ addAndConsolidate [">"; "^"] (undoRotates [">"; "^"]) = [].
Proof.
  apply (addAndConsolidate_undoes_rotates ["P"] [">"; "^"] ["S"]).
  reflexivity.
Defined.

End ConsolidateMore.

(** ** The manager *)

Section ManagerProps.
Import Manager.
Context `{Collaborators}.

Lemma lastCharIs_snoc (c : ascii) (s : string) :
  lastCharIs c (s +:+ String c EmptyString) = true.
Proof.
  unfold lastCharIs.
  assert (L : forall s, String.length (s +:+ String c EmptyString)
                        = S (String.length s)).
  { clear. induction s as [|a s IH]; simpl; [reflexivity|now rewrite IH]. }
  rewrite L.
  assert (G : forall s, String.get (String.length s) (s +:+ String c EmptyString)
                        = Some c).
  { clear. induction s as [|a s IH]; simpl; [reflexivity|exact IH]. }
  rewrite G. apply Ascii.eqb_refl.
Qed.

Lemma dropLastChar_snoc (c : ascii) (s : string) :
  dropLastChar (s +:+ String c EmptyString) = s.
Proof.
  unfold dropLastChar.
  induction s as [|a s IH]; simpl; [reflexivity|].
  destruct (s +:+ String c EmptyString) eqn:E.
  - destruct s; discriminate.
  - rewrite <- E. simpl in IH. rewrite Nat.sub_0_r in IH. simpl.
    rewrite E in *. simpl. simpl in IH. now rewrite IH.
Qed.

Lemma applyFlex_unfold (flexStr : string) (m : FlexagonManager) :
  applyFlex flexStr m =
  let generate := lastCharIs "+" flexStr in
  let flexName := if generate then dropLastChar flexStr else flexStr in
  match allFlexes m !! flexName with
  | None => (Failed (mkFlexError UnknownFlex flexName), m)
  | Some flex =>
      applyFound flexStr flexName flex
        (if generate then Flex_createPattern flex (flexagon m)
         else flexagon m) m
  end.
Proof.
  unfold applyFlex, applyFound, bind, getThis, ret. cbv zeta.
  destruct (allFlexes m !! _) as [flex|]; [|reflexivity].
  destruct (Flex_apply flex _); reflexivity.
Qed.

(** C9: a flex string [base+] whose base name is in the flex set is
    applied to the structure that the flex's [createPattern] generates from
    the current flexagon (the '+' is stripped for the lookup); a flex string
    that does not end in '+' is applied to the current flexagon directly,
    with no structure generated.  Either way a successful result becomes
    the current flexagon and one history entry is added. *)
Theorem applyFlex_generates_on_plus (m : FlexagonManager) (flex : Flex) :
  (forall base : string,
      allFlexes m !! base = Some flex ->
      applyFlex (base +:+ "+") m
      = match Flex_apply flex (Flex_createPattern flex (flexagon m)) with
        | inl result =>
            (Applied,
             mkManager _ result (leafProps m) (allFlexes m) (primeFlexes m)
                       (History_add [base +:+ "+"] result (history m)))
        | inr _ => (Failed (mkFlexError CantApplyFlex base), m)
        end)
  /\ (forall flexStr : string,
      lastCharIs "+" flexStr = false ->
      allFlexes m !! flexStr = Some flex ->
      applyFlex flexStr m
      = match Flex_apply flex (flexagon m) with
        | inl result =>
            (Applied,
             mkManager _ result (leafProps m) (allFlexes m) (primeFlexes m)
                       (History_add [flexStr] result (history m)))
        | inr _ => (Failed (mkFlexError CantApplyFlex flexStr), m)
        end).
Proof.
  split.
  - intros base Hin. rewrite applyFlex_unfold. cbv zeta.
    rewrite lastCharIs_snoc, dropLastChar_snoc, Hin. reflexivity.
  - intros flexStr Hlast Hin. rewrite applyFlex_unfold. cbv zeta.
    rewrite Hlast, Hin. reflexivity.
Qed.

(** C8: [checkForPrimeFlexes flip rightSteps] leaves the manager as it
    was -- current flexagon, flex set and history included -- whatever the
    arguments and however the call ends; only the local copy [modified] is
    flipped and rotated. *)
Theorem checkForPrimeFlexes_frame (flip : bool) (rightSteps : Z)
  (m : FlexagonManager) :
  snd (checkForPrimeFlexes flip rightSteps m) = m
  /\ flexagon (snd (checkForPrimeFlexes flip rightSteps m)) = flexagon m
  /\ allFlexes (snd (checkForPrimeFlexes flip rightSteps m)) = allFlexes m
  /\ primeFlexes (snd (checkForPrimeFlexes flip rightSteps m)) = primeFlexes m
  /\ history (snd (checkForPrimeFlexes flip rightSteps m)) = history m.
Proof.
  assert (E : snd (checkForPrimeFlexes flip rightSteps m) = m).
  { unfold checkForPrimeFlexes, bind, getThis, ret. reflexivity. }
  rewrite E. repeat split; reflexivity.
Qed.


(** A failing [applyFlex] writes nothing. *)
Lemma applyFlex_failure_frame (flexStr : string) (m : FlexagonManager)
  (e : FlexError) :
  fst (applyFlex flexStr m) = Failed e -> snd (applyFlex flexStr m) = m.
Proof.
  rewrite applyFlex_unfold. cbv zeta.
  destruct (allFlexes m !! _) as [flex|]; [|reflexivity].
  unfold applyFound. destruct (Flex_apply flex _); [discriminate|reflexivity].
Qed.

(** No call of [applyFlex] touches the flex tables or the leaf properties. *)
Lemma applyFlex_tables (flexStr : string) (m : FlexagonManager) :
  allFlexes (snd (applyFlex flexStr m)) = allFlexes m
  /\ primeFlexes (snd (applyFlex flexStr m)) = primeFlexes m
  /\ leafProps (snd (applyFlex flexStr m)) = leafProps m.
Proof.
  rewrite applyFlex_unfold. cbv zeta.
  destruct (allFlexes m !! _) as [flex|]; [|repeat split].
  unfold applyFound. destruct (Flex_apply flex _); repeat split.
Qed.

Lemma applyEach_cons (flexName : string) (rest : list string)
  (m : FlexagonManager) :
  applyEach (flexName :: rest) m =
  match fst (applyFlex flexName m) with
  | Failed _ => (Failed (mkFlexError CantApplyFlex flexName),
                 snd (applyFlex flexName m))
  | Applied => applyEach rest (snd (applyFlex flexName m))
  end.
Proof.
  simpl. unfold bind, ret.
  destruct (applyFlex flexName m) as [[|e] m']; reflexivity.
Qed.

Lemma applyEach_tables (flexNames : list string) (m : FlexagonManager) :
  allFlexes (snd (applyEach flexNames m)) = allFlexes m
  /\ primeFlexes (snd (applyEach flexNames m)) = primeFlexes m
  /\ leafProps (snd (applyEach flexNames m)) = leafProps m.
Proof.
  revert m; induction flexNames as [|n rest IH]; intros m.
  - repeat split.
  - rewrite applyEach_cons.
    destruct (applyFlex_tables n m) as (Ha & Hp & Hl).
    destruct (fst (applyFlex n m)).
    + destruct (IH (snd (applyFlex n m))) as (Ha' & Hp' & Hl').
      rewrite Ha', Hp', Hl'. auto.
    + simpl. auto.
Qed.

(** Where a failing run of the loop stops: after a prefix [done] that was
    applied, at the first flex that fails. *)
Lemma applyEach_failure (flexNames : list string) (m : FlexagonManager)
  (e : FlexError) :
  fst (applyEach flexNames m) = Failed e ->
  exists (done : list string) (bad : string) (rest : list string),
    flexNames = done ++ bad :: rest
    /\ fst (applyEach done m) = Applied
    /\ fst (applyFlex bad (snd (applyEach done m))) <> Applied
    /\ snd (applyFlex bad (snd (applyEach done m))) = snd (applyEach done m)
    /\ snd (applyEach flexNames m) = snd (applyEach done m)
    /\ e = mkFlexError CantApplyFlex bad.
Proof.
  revert m; induction flexNames as [|n rest IH]; intros m Hfail.
  - discriminate.
  - rewrite applyEach_cons in Hfail |- *.
    destruct (fst (applyFlex n m)) as [|e'] eqn:En.
    + destruct (IH _ Hfail) as (done & bad & rest' & -> & Hd & Hb & Hs & Hr & ->).
      exists (n :: done), bad, rest'.
      rewrite applyEach_cons, En. repeat apply conj; auto.
    + exists [], n, rest. simpl in *.
      pose proof (applyFlex_failure_frame n m e' En) as Hframe.
      rewrite En. repeat apply conj; auto; congruence.
Qed.

(** C1 (amended): a failing [applyFlex] returns a tagged error and leaves
    the manager exactly as it was.  A failing [applyFlexes] returns a tagged
    error naming the first flex that could not be applied and never changes
    the flex set, but it does not undo the flexes applied before that one:
    the manager is left in the state reached after the applied prefix. *)
Theorem failing_apply_state (flexStr : string) (m : FlexagonManager)
  (e : FlexError) :
  (fst (applyFlex flexStr m) = Failed e -> snd (applyFlex flexStr m) = m)
  /\ (fst (applyFlexes flexStr m) = Failed e ->
      allFlexes (snd (applyFlexes flexStr m)) = allFlexes m
      /\ primeFlexes (snd (applyFlexes flexStr m)) = primeFlexes m
      /\ exists (done : list string) (bad : string) (rest : list string),
          split " " flexStr = done ++ bad :: rest
          /\ fst (applyEach done m) = Applied
          /\ fst (applyFlex bad (snd (applyEach done m))) <> Applied
          /\ snd (applyFlexes flexStr m) = snd (applyEach done m)
          /\ e = mkFlexError CantApplyFlex bad)
  /\ applyEach [] m = (Applied, m).
Proof.
  split; [apply applyFlex_failure_frame|]. split; [|reflexivity].
  unfold applyFlexes. intros Hfail.
  destruct (applyEach_tables (split " " flexStr) m) as (Ha & Hp & _).
  split; [exact Ha|]. split; [exact Hp|].
  destruct (applyEach_failure _ _ _ Hfail)
    as (done & bad & rest & Hsplit & Hd & Hb & _ & Hr & He).
  exists done, bad, rest. repeat apply conj; auto.
Qed.

(** X3: no call of [applyFlexes], failing or not, changes the flex tables
    or the leaf properties. *)
Lemma applyFlexes_tables (flexStr : string) (m : FlexagonManager) :
  allFlexes (snd (applyFlexes flexStr m)) = allFlexes m
  /\ primeFlexes (snd (applyFlexes flexStr m)) = primeFlexes m
  /\ leafProps (snd (applyFlexes flexStr m)) = leafProps m.
Proof. apply applyEach_tables. Qed.

(** X2: whatever makes a flex of the sequence fail, [applyFlexes] reports
    the reason [CantApplyFlex]. *)
Lemma applyFlexes_reason (flexStr : string) (m : FlexagonManager)
  (e : FlexError) :
  fst (applyFlexes flexStr m) = Failed e -> reason e = CantApplyFlex.
Proof.
  intros Hfail. destruct (applyEach_failure _ _ _ Hfail)
    as (done & bad & rest & _ & _ & _ & _ & _ & ->). reflexivity.
Qed.

End ManagerProps.

Section ManagerExamples.
Import Pats Manager ManagerExample.

(** C1 (counterexample): on the ring [1,2,3,4], [applyFlexes "> Q"] fails
    at the unknown flex Q after ">" has been applied: the call returns an
    error, yet the current flexagon is now [2,3,4,1] and the history holds
    one more entry. *)
Lemma applyFlexes_failure_keeps_prefix :
  fst (applyFlexes "> Q" squareManager)
  = Failed (mkFlexError CantApplyFlex "Q")
  /\ flexagon (snd (applyFlexes "> Q" squareManager))
     = [Leaf 2; Leaf 3; Leaf 4; Leaf 1]
  /\ flexagon (snd (applyFlexes "> Q" squareManager))
     <> flexagon squareManager
  /\ historyLength (history (snd (applyFlexes "> Q" squareManager))) = 2
  /\ historyLength (history squareManager) = 1.
Proof.
  repeat split; try (vm_compute; reflexivity).
  vm_compute. discriminate.
Qed.

(** C2 (the code at the failing input): the flex Q is not in the flex set;
    [applyFlex "Q"] reports [UnknownFlex], but [applyFlexes "Q"], which
    calls it, replaces the reason by [CantApplyFlex]. *)
Lemma applyFlexes_masks_unknown_flex :
  allFlexes squareManager !! "Q" = None
  /\ applyFlex "Q" squareManager
     = (Failed (mkFlexError UnknownFlex "Q"), squareManager)
  /\ applyFlexes "Q" squareManager
     = (Failed (mkFlexError CantApplyFlex "Q"), squareManager).
Proof.
  repeat split; vm_compute; reflexivity.
Qed.

(** [failing_apply_state] at work: the unknown flex Q alone, and after
    ">". *)
Lemma failing_apply_state_witness :
  snd (applyFlex "Q" squareManager) = squareManager
  /\ exists (done : list string) (bad : string) (rest : list string),
       split " " "> Q" = done ++ bad :: rest
       /\ fst (applyEach done squareManager) = Applied
       /\ fst (applyFlex bad (snd (applyEach done squareManager))) <> Applied
       /\ snd (applyFlexes "> Q" squareManager)
          = snd (applyEach done squareManager)
       /\ mkFlexError CantApplyFlex "Q" = mkFlexError CantApplyFlex bad.
Proof.
  split.
  - apply (proj1 (failing_apply_state "Q" squareManager
                    (mkFlexError UnknownFlex "Q"))).
    vm_compute. reflexivity.
  - apply (proj1 (proj2 (failing_apply_state "> Q" squareManager
                           (mkFlexError CantApplyFlex "Q")))).
    vm_compute. reflexivity.
Defined.

(** [applyFlex_generates_on_plus] at work: ">+" and ">" on the ring
    [1,2,3,4]. *)
Lemma applyFlex_generates_on_plus_witness :
  applyFlex (">" +:+ "+") squareManager
  = (Applied,
     mkManager _ [Leaf 2; Leaf 3; Leaf 4; Leaf 1] tt rotationsOnly ∅
       (addItem [">+"] [Leaf 2; Leaf 3; Leaf 4; Leaf 1] (newHistory square)))
  /\ applyFlex ">" squareManager
     = (Applied,
        mkManager _ [Leaf 2; Leaf 3; Leaf 4; Leaf 1] tt rotationsOnly ∅
          (addItem [">"] [Leaf 2; Leaf 3; Leaf 4; Leaf 1]
             (newHistory square))).
Proof.
  split.
  - rewrite (proj1 (applyFlex_generates_on_plus squareManager shiftRight) ">");
      [reflexivity|vm_compute; reflexivity].
  - rewrite (proj2 (applyFlex_generates_on_plus squareManager shiftRight) ">");
      [reflexivity|reflexivity|vm_compute; reflexivity].
Defined.


Lemma applyFlexes_reason_witness :
  fst (applyFlexes "> Q" squareManager)
  = Failed (mkFlexError CantApplyFlex "Q")
  /\ reason (mkFlexError CantApplyFlex "Q") = CantApplyFlex.
Proof.
  split; [vm_compute; reflexivity|].
  apply (applyFlexes_reason "> Q" squareManager). vm_compute. reflexivity.
Defined.

End ManagerExamples.

(** ** Sequences of flexes *)

Section ManagerSequences.
Import Manager.
Context `{Collaborators}.

Lemma split_cons_nonempty (sep : ascii) (s : string) : split sep s <> [].
Proof.
  destruct s as [|c s]; simpl; [discriminate|].
  destruct (Ascii.eqb c sep); [discriminate|].
  destruct (split sep s); discriminate.
Qed.

(** Splitting at a separator that stands between two strings. *)
Lemma split_app (sep : ascii) (a b : string) :
  split sep (a +:+ String sep b) = split sep a ++ split sep b.
Proof.
  induction a as [|c a IH]; simpl.
  - now rewrite Ascii.eqb_refl.
  - change (String.append a (String sep b)) with (a +:+ String sep b).
    rewrite IH. destruct (Ascii.eqb c sep); [reflexivity|].
    destruct (split sep a) as [|w ws] eqn:E; [|reflexivity].
    now apply split_cons_nonempty in E.
Qed.


Lemma applyEach_app (xs ys : list string) (m : FlexagonManager) :
  applyEach (xs ++ ys) m =
  match fst (applyEach xs m) with
  | Applied => applyEach ys (snd (applyEach xs m))
  | Failed _ => applyEach xs m
  end.
Proof.
  revert m; induction xs as [|x xs IH]; intros m; [reflexivity|].
  rewrite <- app_comm_cons, !applyEach_cons.
  destruct (fst (applyFlex x m)); [apply IH|reflexivity].
Qed.

(** The loop fails on every list that holds a name outside the flex set:
    at that name, or before it. *)
Lemma applyEach_unknown (flexNames : list string) (bad : string)
  (m : FlexagonManager) :
  lastCharIs "+" bad = false ->
  allFlexes m !! bad = None ->
  In bad flexNames ->
  exists e, fst (applyEach flexNames m) = Failed e.
Proof.
  intros Hplus Hnone. revert m Hnone.
  induction flexNames as [|x rest IH]; intros m Hnone Hin; [destruct Hin|].
  rewrite applyEach_cons.
  destruct (fst (applyFlex x m)) eqn:E; [|eexists; reflexivity].
  destruct Hin as [->|Hin].
  - rewrite applyFlex_unfold in E. cbv zeta in E.
    rewrite Hplus, Hnone in E. discriminate.
  - apply IH; [|exact Hin].
    now rewrite (proj1 (applyFlex_tables x m)).
Qed.

(** X4: [applyFlexes] on two sequences joined by a space applies the first
    and, when that succeeded, the second from the state reached; when the
    first fails, the call ends there with that error. *)
Theorem applyFlexes_sequence (first second : string) (m : FlexagonManager) :
  applyFlexes (first +:+ " " +:+ second) m =
  match fst (applyFlexes first m) with
  | Applied => applyFlexes second (snd (applyFlexes first m))
  | Failed _ => applyFlexes first m
  end.
Proof.
  unfold applyFlexes.
  change (first +:+ " " +:+ second) with (first +:+ String " " second).
  rewrite split_app. apply applyEach_app.
Qed.

(** X5: the empty string is not an empty sequence: unless a flex has the
    empty name, [applyFlexes] of the empty string fails on that name and
    leaves the manager as it was, and so does every sequence with a leading
    space; a sequence with a trailing space or with two spaces in a row
    fails as well (at the empty name, or before it). *)
Theorem applyFlexes_empty_name (m : FlexagonManager) :
  allFlexes m !! "" = None ->
  applyFlexes "" m = (Failed (mkFlexError CantApplyFlex ""), m)
  /\ (forall rest : string,
        applyFlexes (" " +:+ rest) m
        = (Failed (mkFlexError CantApplyFlex ""), m))
  /\ (forall flexStr : string,
        exists e, fst (applyFlexes (flexStr +:+ " ") m) = Failed e)
  /\ (forall first second : string,
        exists e,
          fst (applyFlexes (first +:+ "  " +:+ second) m) = Failed e).
Proof.
  intros Hnone.
  assert (Hempty : applyFlex "" m
                   = (Failed (mkFlexError UnknownFlex ""), m)).
  { rewrite applyFlex_unfold. cbv zeta.
    change (lastCharIs "+" "") with false. cbv iota.
    now rewrite Hnone. }
  repeat apply conj.
  - unfold applyFlexes. simpl split. rewrite applyEach_cons, Hempty.
    reflexivity.
  - intros rest. unfold applyFlexes. simpl split.
    rewrite applyEach_cons, Hempty. reflexivity.
  - intros flexStr. unfold applyFlexes.
    change (flexStr +:+ " ") with (flexStr +:+ String " " "").
    rewrite split_app. simpl (split " " "").
    apply (applyEach_unknown _ ""); [reflexivity|exact Hnone|].
    apply in_or_app. right. now left.
  - intros first second. unfold applyFlexes.
    change (first +:+ "  " +:+ second)
      with (first +:+ String " " (String " " second)).
    rewrite split_app. simpl (split " " (String " " second)).
    apply (applyEach_unknown _ ""); [reflexivity|exact Hnone|].
    apply in_or_app. right. now left.
Qed.


(** X18: the edges of [checkForPrimeFlexes]: without a flip, a number of
    steps that is zero or negative rotates nothing and the prime flexes
    are checked on the current flexagon; a flip when the flex set has no
    "^", or a positive number of steps when it has no ">", ends in a
    thrown error (a method call on [undefined]), not in a [FlexError]. *)
Theorem checkForPrimeFlexes_edges (m : FlexagonManager) :
  (forall rightSteps : Z,
      (rightSteps <= 0)%Z ->
      fst (checkForPrimeFlexes false rightSteps m)
      = Returned (checkForFlexes (flexagon m) (primeFlexes m)))
  /\ (forall rightSteps : Z,
        allFlexes m !! "^" = None ->
        fst (checkForPrimeFlexes true rightSteps m) = Thrown)
  /\ (forall (flip : bool) (rightSteps : Z),
        (0 < rightSteps)%Z ->
        allFlexes m !! ">" = None ->
        fst (checkForPrimeFlexes flip rightSteps m) = Thrown).
Proof.
  assert (Hthrown : forall (flex : option Flex) (k : nat),
             Nat.iter k (applyUnchecked flex) Thrown = Thrown).
  { intros flex k. induction k as [|k IH]; [reflexivity|].
    simpl. rewrite IH. now destruct flex. }
  unfold checkForPrimeFlexes, bind, getThis, ret. repeat apply conj.
  - intros rightSteps Hle. cbn [fst].
    replace (Z.to_nat rightSteps) with 0%nat by lia. reflexivity.
  - intros rightSteps Hnone. cbn [fst]. rewrite Hnone.
    cbn [applyUnchecked]. now rewrite Hthrown.
  - intros flip rightSteps Hpos Hnone. cbn [fst]. rewrite Hnone.
    destruct (Z.to_nat rightSteps) as [|k] eqn:Hk; [lia|].
    reflexivity.
Qed.

End ManagerSequences.

(** ** The current flexagon and the history *)

Section ManagerHistory.
Import Manager ManagerMethods.
Context `{MethodCollaborators}.

(** What the manager relies on: a new history has its flexagon as the
    current item, and [add] makes the added flexagon the current one. *)
Hypothesis History_new_current :
  forall f : Flexagon, snd (History_getCurrent (History_new f)) = f.
Hypothesis History_add_current :
  forall (flexes : list string) (f : Flexagon) (h : History),
    snd (History_getCurrent (History_add flexes f h)) = f.

Lemma applyFlex_inSync (flexStr : string) (m : FlexagonManager) :
  inSync m -> inSync (snd (applyFlex flexStr m)).
Proof.
  intros Hm. rewrite applyFlex_unfold. cbv zeta.
  destruct (allFlexes m !! _) as [flex|]; [|exact Hm].
  unfold applyFound. destruct (Flex_apply flex _); [|exact Hm].
  unfold inSync. simpl. now rewrite History_add_current.
Qed.

Lemma applyEach_inSync (flexNames : list string) (m : FlexagonManager) :
  inSync m -> inSync (snd (applyEach flexNames m)).
Proof.
  revert m; induction flexNames as [|x rest IH]; intros m Hm; [exact Hm|].
  rewrite applyEach_cons.
  pose proof (applyFlex_inSync x m Hm) as Hx.
  destruct (fst (applyFlex x m)); [now apply IH|exact Hx].
Qed.

(** X7: the current flexagon is always the flexagon of the current history
    item: the constructor makes it so, and every method keeps it so --
    [applyFlex] and [applyFlexes] also when they fail part of the way,
    [undo], [redo] and [undoAll] whatever the history does, and the
    methods that only read or only touch the leaf properties. *)
Theorem manager_inSync :
  (forall (f : Flexagon) (leafProps : option (list LeafProperties)),
      inSync (makeFlexagonManager f leafProps))
  /\ (forall (m : FlexagonManager),
      inSync m ->
      (forall flexStr, inSync (snd (applyFlex flexStr m)))
      /\ (forall flexStr, inSync (snd (applyFlexes flexStr m)))
      /\ (forall flip rightSteps,
            inSync (snd (checkForPrimeFlexes flip rightSteps m)))
      /\ (forall label front, inSync (snd (setFaceLabel label front m)))
      /\ (forall color front, inSync (snd (setFaceColor color front m)))
      /\ inSync (snd (getFlexHistory m)))
  /\ (forall (m : FlexagonManager),
      inSync (snd (undo m)) /\ inSync (snd (redo m))
      /\ inSync (snd (undoAll m))).
Proof.
  repeat apply conj.
  - intros f leafProps. unfold inSync, makeFlexagonManager. simpl.
    now rewrite History_new_current.
  - intros m Hm. repeat apply conj.
    + intros flexStr. now apply applyFlex_inSync.
    + intros flexStr. now apply applyEach_inSync.
    + intros flip rightSteps. exact Hm.
    + intros label front. exact Hm.
    + intros color front. exact Hm.
    + exact Hm.
  - intros m. repeat apply conj; reflexivity.
Qed.

(** [undo], [redo] and [undoAll] change the current flexagon and the
    history only: the flex tables and the leaf properties stay, the history
    is the old one after the one move, and the flexes reported by
    [getFlexHistory] afterwards are those of the item the move arrived
    at. *)
Theorem undo_redo_frame (m : FlexagonManager) :
  let moved (move : History -> History) (m' : FlexagonManager) :=
    history m' = move (history m)
    /\ flexagon m' = snd (History_getCurrent (move (history m)))
    /\ fst (getFlexHistory m') = fst (History_getCurrent (move (history m)))
    /\ allFlexes m' = allFlexes m
    /\ primeFlexes m' = primeFlexes m
    /\ leafProps m' = leafProps m in
  moved History_undo (snd (undo m))
  /\ moved History_redo (snd (redo m))
  /\ moved History_undoAll (snd (undoAll m)).
Proof.
  cbv zeta. repeat apply conj; reflexivity.
Qed.

End ManagerHistory.

Section ManagerMoreExamples.
Import Pats Manager ManagerMethods ManagerExample ManagerMethodsExample.

(** [applyFlexes_empty_name] at work on the ring [1,2,3,4]. *)
Lemma applyFlexes_empty_name_witness :
  allFlexes squareManager !! "" = None
  /\ applyFlexes "" squareManager
     = (Failed (mkFlexError CantApplyFlex ""), squareManager)
  /\ exists e, fst (applyFlexes "> " squareManager) = Failed e.
Proof.
  assert (Hnone : allFlexes squareManager !! "" = None)
    by (vm_compute; reflexivity).
  destruct (applyFlexes_empty_name squareManager Hnone)
    as (Hempty & _ & Htrail & _).
  split; [exact Hnone|]. split; [exact Hempty|]. exact (Htrail ">").
Defined.


(** [manager_inSync] at work: after the failing sequence "> Q", and after
    an undo, the current flexagon is still the one of the current history
    item. *)
Lemma manager_inSync_witness :
  @inSync cursorCollaborators cursorMethodCollaborators
          (snd (@applyFlexes cursorCollaborators "> Q" cursorManager))
  /\ @inSync cursorCollaborators cursorMethodCollaborators
             (snd (@undo cursorCollaborators cursorMethodCollaborators
                     (snd (@applyFlexes cursorCollaborators ">"
                             cursorManager)))).
Proof.
  destruct (@manager_inSync cursorCollaborators cursorMethodCollaborators
              (fun f => eq_refl) (fun flexes f h => eq_refl))
    as (Hnew & Hkeep & Hmove).
  split.
  - apply (Hkeep cursorManager (Hnew square None)).
  - apply Hmove.
Defined.

End ManagerMoreExamples.

(** ** The order on flexagons *)

Section LexOrder.
Import Tracker.
Context {A : Type} (cmp : A -> A -> comparison).

Lemma lexCompare_eq (xs : list A) :
  Forall (fun x => forall y, cmp x y = Eq -> x = y) xs ->
  forall ys, lexCompare cmp xs ys = Eq -> xs = ys.
Proof.
  induction 1 as [|x xs Hx _ IH]; intros [|y ys]; simpl; try discriminate.
  - reflexivity.
  - destruct (cmp x y) eqn:E; try discriminate.
    intros Hrest. f_equal; [now apply Hx|now apply IH].
Qed.

Lemma lexCompare_refl (xs : list A) :
  Forall (fun x => cmp x x = Eq) xs -> lexCompare cmp xs xs = Eq.
Proof.
  induction 1 as [|x xs Hx _ IH]; simpl; [reflexivity|now rewrite Hx].
Qed.

Lemma lexCompare_antisym (xs : list A) :
  Forall (fun x => forall y, cmp y x = CompOpp (cmp x y)) xs ->
  forall ys, lexCompare cmp ys xs = CompOpp (lexCompare cmp xs ys).
Proof.
  induction 1 as [|x xs Hx _ IH]; intros [|y ys]; simpl; try reflexivity.
  rewrite Hx. destruct (cmp x y); simpl; [apply IH|reflexivity|reflexivity].
Qed.

Lemma lexCompare_trans (xs : list A) :
  (forall y z, cmp y z = Eq -> y = z) ->
  Forall (fun x => forall y z, cmp x y = Lt -> cmp y z = Lt -> cmp x z = Lt)
         xs ->
  Forall (fun x => forall y, cmp x y = Eq -> x = y) xs ->
  forall ys zs,
    lexCompare cmp xs ys = Lt -> lexCompare cmp ys zs = Lt ->
    lexCompare cmp xs zs = Lt.
Proof.
  intros Heq Htr Hxeq. revert Hxeq.
  induction Htr as [|x xs Hx _ IH]; intros Hxeq [|y ys] [|z zs]; simpl;
    try discriminate; try reflexivity.
  inversion Hxeq as [|? ? Hxe Hxse]; subst.
  destruct (cmp x y) eqn:Exy; try discriminate.
  - apply Hxe in Exy; subst y.
    destruct (cmp x z) eqn:Exz; try discriminate; [|reflexivity].
    intros H1 H2. exact (IH Hxse ys zs H1 H2).
  - intros _. destruct (cmp y z) eqn:Eyz; try discriminate.
    + apply Heq in Eyz; subst z. now rewrite Exy.
    + intros _. now rewrite (Hx y z Exy Eyz).
Qed.

End LexOrder.

Section TreeOrder.
Import Pats Tracker.

(** Induction over pats that reaches the members of a group. *)
Lemma LeafTree_nested_ind (P : LeafTree -> Prop) :
  (forall id, P (Leaf id)) ->
  (forall ts, Forall P ts -> P (Group ts)) ->
  forall t, P t.
Proof.
  intros HL HG. fix IH 1. intros [id|ts]; [apply HL|apply HG].
  induction ts as [|t ts IHts]; constructor; [apply IH|exact IHts].
Qed.

Lemma compareTree_eq (a : LeafTree) :
  forall b, compareTree a b = Eq -> a = b.
Proof.
  induction a as [x|xs IH] using LeafTree_nested_ind; intros [y|ys]; simpl;
    try discriminate.
  - intros E. apply Z.compare_eq in E. now subst.
  - intros E. f_equal. now apply (lexCompare_eq compareTree xs IH).
Qed.

Lemma compareTree_refl (a : LeafTree) : compareTree a a = Eq.
Proof.
  induction a as [x|xs IH] using LeafTree_nested_ind; simpl.
  - apply Z.compare_refl.
  - now apply lexCompare_refl.
Qed.

Lemma compareTree_antisym (a : LeafTree) :
  forall b, compareTree b a = CompOpp (compareTree a b).
Proof.
  induction a as [x|xs IH] using LeafTree_nested_ind; intros [y|ys]; simpl;
    try reflexivity.
  - apply Z.compare_antisym.
  - now apply lexCompare_antisym.
Qed.

Lemma compareTree_trans (a : LeafTree) :
  forall b c, compareTree a b = Lt -> compareTree b c = Lt ->
              compareTree a c = Lt.
Proof.
  induction a as [x|xs IH] using LeafTree_nested_ind;
    intros [y|ys] [z|zs]; simpl; try discriminate; try reflexivity.
  - rewrite !Z.compare_lt_iff. lia.
  - apply lexCompare_trans.
    + intros u v. apply compareTree_eq.
    + exact IH.
    + apply Forall_forall. intros u _. apply compareTree_eq.
Qed.

Lemma compareFlexagon_eq (f g : Flexagon) :
  compareFlexagon f g = Eq -> f = g.
Proof.
  apply lexCompare_eq, Forall_forall. intros a _. apply compareTree_eq.
Qed.

Lemma compareFlexagon_refl (f : Flexagon) : compareFlexagon f f = Eq.
Proof.
  apply lexCompare_refl, Forall_forall. intros a _. apply compareTree_refl.
Qed.

Lemma compareFlexagon_antisym (f g : Flexagon) :
  compareFlexagon g f = CompOpp (compareFlexagon f g).
Proof.
  apply lexCompare_antisym, Forall_forall. intros a _.
  apply compareTree_antisym.
Qed.

Lemma compareFlexagon_trans (f g h : Flexagon) :
  compareFlexagon f g = Lt -> compareFlexagon g h = Lt ->
  compareFlexagon f h = Lt.
Proof.
  apply lexCompare_trans.
  - intros u v. apply compareTree_eq.
  - apply Forall_forall. intros a _. apply compareTree_trans.
  - apply Forall_forall. intros a _. apply compareTree_eq.
Qed.


Lemma notAfter_refl (f : Flexagon) : notAfter f f.
Proof. unfold notAfter. now rewrite compareFlexagon_refl. Qed.

Lemma notAfter_trans (f g h : Flexagon) :
  notAfter f g -> notAfter g h -> notAfter f h.
Proof.
  unfold notAfter. intros Hfg Hgh.
  destruct (compareFlexagon f g) eqn:Efg; try congruence.
  - apply compareFlexagon_eq in Efg. now subst.
  - destruct (compareFlexagon g h) eqn:Egh; try congruence.
    + apply compareFlexagon_eq in Egh. subst. now rewrite Efg.
    + now rewrite (compareFlexagon_trans f g h Efg Egh).
Qed.

Lemma notAfter_antisym (f g : Flexagon) :
  notAfter f g -> notAfter g f -> f = g.
Proof.
  unfold notAfter. rewrite (compareFlexagon_antisym f g).
  destruct (compareFlexagon f g) eqn:E; simpl; try congruence.
  intros _ _. now apply compareFlexagon_eq.
Qed.

Lemma smaller_spec (f g : Flexagon) :
  (smaller f g = f \/ smaller f g = g)
  /\ notAfter (smaller f g) f /\ notAfter (smaller f g) g.
Proof.
  unfold smaller, notAfter.
  destruct (compareFlexagon g f) eqn:E.
  - apply compareFlexagon_eq in E. subst.
    rewrite compareFlexagon_refl. repeat split; auto; discriminate.
  - rewrite E, compareFlexagon_refl. repeat split; auto; discriminate.
  - rewrite compareFlexagon_refl, (compareFlexagon_antisym g f), E.
    repeat split; auto; discriminate.
Qed.

(** The fold of [smaller] returns a least element of what it has seen. *)
Lemma fold_smaller_spec (l : list Flexagon) :
  forall f,
    In (fold_left smaller l f) (f :: l)
    /\ forall g, In g (f :: l) -> notAfter (fold_left smaller l f) g.
Proof.
  induction l as [|x l IH]; intros f; simpl.
  - split; [now left|]. intros g [<-|[]]. apply notAfter_refl.
  - destruct (IH (smaller f x)) as [Hin Hle].
    destruct (smaller_spec f x) as ([Es|Es] & Hf & Hx).
    + split.
      * destruct Hin as [Hin|Hin]; [left; congruence|right; now right].
      * intros g [<-|[<-|Hg]].
        -- eapply notAfter_trans; [apply Hle; now left|exact Hf].
        -- eapply notAfter_trans; [apply Hle; now left|exact Hx].
        -- apply Hle. now right.
    + split.
      * destruct Hin as [Hin|Hin]; [right; left; congruence|right; now right].
      * intros g [<-|[<-|Hg]].
        -- eapply notAfter_trans; [apply Hle; now left|exact Hf].
        -- eapply notAfter_trans; [apply Hle; now left|exact Hx].
        -- apply Hle. now right.
Qed.

(** Two sequences with the same members have the same least element. *)
Lemma fold_smaller_members (l l' : list Flexagon) (f f' : Flexagon) :
  (forall g, In g (f :: l) <-> In g (f' :: l')) ->
  fold_left smaller l f = fold_left smaller l' f'.
Proof.
  intros Hsame.
  destruct (fold_smaller_spec l f) as [Hin Hle].
  destruct (fold_smaller_spec l' f') as [Hin' Hle'].
  apply notAfter_antisym.
  - apply Hle. apply Hsame. exact Hin'.
  - apply Hle'. apply Hsame. exact Hin.
Qed.

End TreeOrder.

(** ** Symmetry moves *)

Section Symmetry.
Import Pats Tracker.

Lemma flipPat_involutive (t : LeafTree) : flipPat (flipPat t) = t.
Proof.
  induction t as [id|ts IH] using LeafTree_nested_ind; simpl.
  - f_equal. lia.
  - f_equal. rewrite List.map_rev, rev_involutive, List.map_map.
    induction IH as [|t ts Ht _ IHts]; simpl; [reflexivity|].
    now rewrite Ht, IHts.
Qed.


Lemma flipAll_involutive (f : Flexagon) : flipAll (flipAll f) = f.
Proof.
  unfold flipAll. rewrite List.map_map.
  induction f as [|t f IH]; simpl; [reflexivity|].
  now rewrite flipPat_involutive, IH.
Qed.

Lemma turnOver_reflect_flipAll (f : Flexagon) :
  turnOver f = reflect (flipAll f).
Proof. reflexivity. Qed.

Lemma flipAll_reflect_turnOver (f : Flexagon) :
  flipAll f = reflect (turnOver f).
Proof. unfold reflect, turnOver. now rewrite rev_involutive. Qed.

Lemma flipAll_reflect (f : Flexagon) :
  flipAll (reflect f) = reflect (flipAll f).
Proof. unfold flipAll, reflect. apply List.map_rev. Qed.

Lemma flipAll_rotateRight (f : Flexagon) :
  flipAll (rotateRight f) = rotateRight (flipAll f).
Proof.
  destruct f as [|p ps]; simpl; [reflexivity|].
  unfold flipAll. now rewrite List.map_app.
Qed.

Lemma rotateBy_succ (k : nat) (f : Flexagon) :
  rotateBy (S k) f = rotateBy k (rotateRight f).
Proof. unfold rotateBy. apply Nat.iter_succ_r. Qed.

Lemma rotateBy_add (j k : nat) (f : Flexagon) :
  rotateBy (j + k) f = rotateBy j (rotateBy k f).
Proof. unfold rotateBy. apply Nat.iter_add. Qed.

Lemma flipAll_rotateBy (k : nat) (f : Flexagon) :
  flipAll (rotateBy k f) = rotateBy k (flipAll f).
Proof.
  induction k as [|k IH]; [reflexivity|].
  change (rotateBy (S k) f) with (rotateRight (rotateBy k f)).
  change (rotateBy (S k) (flipAll f)) with (rotateRight (rotateBy k (flipAll f))).
  now rewrite flipAll_rotateRight, IH.
Qed.

Lemma rotateRight_length (f : Flexagon) :
  length (rotateRight f) = length f.
Proof.
  destruct f as [|p ps]; simpl; [reflexivity|].
  rewrite length_app. simpl. lia.
Qed.

Lemma rotateBy_length (k : nat) (f : Flexagon) :
  length (rotateBy k f) = length f.
Proof.
  induction k as [|k IH]; [reflexivity|].
  change (rotateBy (S k) f) with (rotateRight (rotateBy k f)).
  now rewrite rotateRight_length.
Qed.

(** Rotating by the length of a prefix moves the prefix to the end. *)
Lemma rotateBy_prefix (xs ys : Flexagon) :
  rotateBy (length xs) (xs ++ ys) = ys ++ xs.
Proof.
  revert ys; induction xs as [|x xs IH]; intros ys.
  - simpl. now rewrite app_nil_r.
  - simpl length. rewrite rotateBy_succ. simpl rotateRight.
    rewrite <- app_assoc, IH, <- app_assoc. reflexivity.
Qed.

Lemma rotateBy_full (f : Flexagon) : rotateBy (length f) f = f.
Proof.
  rewrite <- (app_nil_r f) at 2. rewrite rotateBy_prefix. reflexivity.
Qed.

Lemma rotateBy_multiple (k : nat) (f : Flexagon) :
  rotateBy (k * length f) f = f.
Proof.
  induction k as [|k IH]; [reflexivity|].
  simpl. rewrite rotateBy_add, IH. apply rotateBy_full.
Qed.

Lemma rotateBy_nil (k : nat) : rotateBy k [] = [].
Proof.
  induction k as [|k IH]; [reflexivity|]. now rewrite rotateBy_succ.
Qed.

Lemma rotateBy_mod (k : nat) (f : Flexagon) :
  rotateBy k f = rotateBy (k mod length f) f.
Proof.
  destruct (length f) as [|n] eqn:En.
  - destruct f; [|discriminate]. now rewrite !rotateBy_nil.
  - rewrite (Nat.div_mod_eq k (S n)) at 1.
    rewrite Nat.add_comm, rotateBy_add, Nat.mul_comm, <- En.
    now rewrite rotateBy_multiple.
Qed.

Lemma reflect_rotateRight (f : Flexagon) :
  reflect (rotateRight f) = rotateBy (length f - 1) (reflect f).
Proof.
  destruct f as [|p ps]; [reflexivity|].
  unfold reflect. simpl rotateRight. simpl rev at 2.
  rewrite rev_app_distr. simpl length.
  replace (S (length ps) - 1) with (length (rev ps))
    by (rewrite length_rev; lia).
  rewrite rotateBy_prefix. reflexivity.
Qed.

Lemma reflect_length (f : Flexagon) : length (reflect f) = length f.
Proof. apply length_rev. Qed.

Lemma reflect_rotateBy (k : nat) (f : Flexagon) :
  reflect (rotateBy k f) = rotateBy (k * (length f - 1)) (reflect f).
Proof.
  induction k as [|k IH]; [reflexivity|].
  change (rotateBy (S k) f) with (rotateRight (rotateBy k f)).
  rewrite reflect_rotateRight, IH, rotateBy_length, <- rotateBy_add.
  f_equal; simpl; lia.
Qed.

Lemma reflect_involutive (f : Flexagon) : reflect (reflect f) = f.
Proof. apply rev_involutive. Qed.


Lemma inOrbit_refl (f : Flexagon) : inOrbit f f.
Proof. now exists 0, false, false. Qed.

Lemma inOrbit_rotateRight (f x : Flexagon) :
  inOrbit f x -> inOrbit f (rotateRight x).
Proof. intros (k & a & b & ->). now exists (S k), a, b. Qed.

Lemma inOrbit_rotateBy (j : nat) (f x : Flexagon) :
  inOrbit f x -> inOrbit f (rotateBy j x).
Proof.
  intros Hx. induction j as [|j IH]; [exact Hx|].
  change (rotateBy (S j) x) with (rotateRight (rotateBy j x)).
  now apply inOrbit_rotateRight.
Qed.

Lemma inOrbit_reflect (f x : Flexagon) :
  inOrbit f x -> inOrbit f (reflect x).
Proof.
  intros (k & a & b & ->). rewrite reflect_rotateBy.
  eexists _, (negb a), b. f_equal.
  destruct a; simpl; [now rewrite reflect_involutive|reflexivity].
Qed.

Lemma inOrbit_flipAll (f x : Flexagon) :
  inOrbit f x -> inOrbit f (flipAll x).
Proof.
  intros (k & a & b & ->). rewrite flipAll_rotateBy.
  exists k, a, (negb b). f_equal.
  destruct a, b; simpl; rewrite ?flipAll_reflect, ?flipAll_involutive;
    reflexivity.
Qed.

Lemma inOrbit_turnOver (f x : Flexagon) :
  inOrbit f x -> inOrbit f (turnOver x).
Proof.
  intros Hx. rewrite turnOver_reflect_flipAll.
  now apply inOrbit_reflect, inOrbit_flipAll.
Qed.

Lemma inOrbit_trans (f g x : Flexagon) :
  inOrbit f g -> inOrbit g x -> inOrbit f x.
Proof.
  intros Hg (k & a & b & ->).
  apply inOrbit_rotateBy.
  assert (Hb : inOrbit f (onlyIf b flipAll g)).
  { destruct b; simpl; [now apply inOrbit_flipAll|exact Hg]. }
  destruct a; simpl; [now apply inOrbit_reflect|exact Hb].
Qed.

Lemma onlyIf_length (c : bool) (op : Flexagon -> Flexagon) (f : Flexagon) :
  (forall g, length (op g) = length g) ->
  length (onlyIf c op f) = length f.
Proof. intros Hop. destruct c; simpl; [apply Hop|reflexivity]. Qed.

Lemma inOrbit_sym (f g : Flexagon) : inOrbit f g -> inOrbit g f.
Proof.
  intros (k & a & b & ->).
  set (y := onlyIf a reflect (onlyIf b flipAll f)).
  assert (Hy : inOrbit (rotateBy k y) y).
  { destruct (length y) as [|n] eqn:En.
    - destruct y; [|discriminate]. rewrite rotateBy_nil. apply inOrbit_refl.
    - exists (k * n), false, false. simpl.
      rewrite <- rotateBy_add.
      replace (k * n + k) with (k * length y)
        by (rewrite En, Nat.mul_succ_r; reflexivity).
      now rewrite rotateBy_multiple. }
  assert (Hz : inOrbit (rotateBy k y) (onlyIf b flipAll f)).
  { subst y. destruct a; simpl in *; [|exact Hy].
    apply inOrbit_reflect in Hy. now rewrite reflect_involutive in Hy. }
  destruct b; simpl in *; [|exact Hz].
  apply inOrbit_flipAll in Hz. now rewrite flipAll_involutive in Hz.
Qed.

Lemma sameState_inOrbit (f g : Flexagon) : sameState f g <-> inOrbit f g.
Proof.
  split.
  - induction 1 as [f g Hm|f|f g _ IH|f g h _ IH1 _ IH2].
    + destruct Hm.
      * apply inOrbit_rotateRight, inOrbit_refl.
      * apply inOrbit_reflect, inOrbit_refl.
      * apply inOrbit_turnOver, inOrbit_refl.
    + apply inOrbit_refl.
    + now apply inOrbit_sym.
    + now apply inOrbit_trans with g.
  - intros (k & a & b & ->).
    assert (Hb : sameState f (onlyIf b flipAll f)).
    { destruct b; simpl; [|apply same_refl].
      rewrite flipAll_reflect_turnOver.
      eapply same_trans; apply same_move; constructor. }
    assert (Ha : sameState f (onlyIf a reflect (onlyIf b flipAll f))).
    { destruct a; simpl; [|exact Hb].
      eapply same_trans; [exact Hb|apply same_move; constructor]. }
    induction k as [|k IH]; [exact Ha|].
    eapply same_trans; [exact IH|].
    change (rotateBy (S k) ?x) with (rotateRight (rotateBy k x)).
    apply same_move. constructor.
Qed.

Lemma In_rotations (n : nat) (g x : Flexagon) :
  In x (rotations n g) <-> exists k, k < n /\ x = rotateBy k g.
Proof.
  revert g; induction n as [|n IH]; intros g; simpl.
  - split; [intros []|intros (k & Hk & _); lia].
  - rewrite IH. split.
    + intros [<-|(k & Hk & ->)].
      * exists 0. split; [lia|reflexivity].
      * exists (S k). split; [lia|]. now rewrite rotateBy_succ.
    + intros ([|k] & Hk & ->).
      * now left.
      * right. exists k. split; [lia|]. now rewrite rotateBy_succ.
Qed.

(** The list of images, with the flexagon itself, is its orbit. *)
Lemma In_images (f x : Flexagon) :
  In x (f :: images f) <-> inOrbit f x.
Proof.
  split.
  - intros [<-|Hin]; [apply inOrbit_refl|].
    unfold images in Hin.
    repeat (apply in_app_or in Hin; destruct Hin as [Hin|Hin]);
      apply In_rotations in Hin; destruct Hin as (k & _ & ->);
      apply inOrbit_rotateBy.
    + apply inOrbit_refl.
    + apply inOrbit_reflect, inOrbit_refl.
    + apply inOrbit_turnOver, inOrbit_refl.
    + apply inOrbit_reflect, inOrbit_turnOver, inOrbit_refl.
  - intros (k & a & b & ->).
    set (y := onlyIf a reflect (onlyIf b flipAll f)).
    assert (Hlen : length y = length f).
    { subst y. rewrite onlyIf_length by apply reflect_length.
      apply onlyIf_length. intros g. apply length_map. }
    destruct (length f) as [|n] eqn:En.
    + destruct f; [|discriminate]. left.
      subst y. destruct a, b; simpl; now rewrite rotateBy_nil.
    + right. rewrite rotateBy_mod, Hlen.
      assert (Hk : k mod S n < S n) by (apply Nat.mod_upper_bound; lia).
      unfold images. rewrite En.
      assert (Hrot : forall g, g = y -> In (rotateBy (k mod S n) y)
                                           (rotations (S n) g)).
      { intros g ->. apply In_rotations. now exists (k mod S n). }
      subst y. destruct a, b; simpl onlyIf in *.
      * apply in_or_app; right. apply in_or_app; right.
        apply in_or_app; left. now apply Hrot.
      * apply in_or_app; right. apply in_or_app; left. now apply Hrot.
      * apply in_or_app; right. apply in_or_app; right.
        apply in_or_app; right. apply Hrot.
        symmetry. apply flipAll_reflect_turnOver.
      * apply in_or_app; left. now apply Hrot.
Qed.

(** The canonical key is an image of the flexagon ... *)
Lemma canonicalKey_inOrbit (f : Flexagon) : inOrbit f (canonicalKey f).
Proof.
  apply In_images. unfold canonicalKey.
  apply (fold_smaller_spec (images f) f).
Qed.

(** ... and the same for all flexagons of an orbit. *)
Lemma canonicalKey_orbit (f g : Flexagon) :
  inOrbit f g -> canonicalKey f = canonicalKey g.
Proof.
  intros Hfg. unfold canonicalKey. apply fold_smaller_members.
  intros x. rewrite !In_images. split; intros Hx.
  - apply inOrbit_trans with f; [now apply inOrbit_sym|exact Hx].
  - now apply inOrbit_trans with g.
Qed.

(** Two flexagons have the same canonical key exactly when they are the
    same state. *)
Lemma canonicalKey_sameState (f g : Flexagon) :
  canonicalKey f = canonicalKey g <-> sameState f g.
Proof.
  rewrite sameState_inOrbit. split.
  - intros E. apply inOrbit_trans with (canonicalKey f).
    + apply canonicalKey_inOrbit.
    + rewrite E. apply inOrbit_sym, canonicalKey_inOrbit.
  - apply canonicalKey_orbit.
Qed.

End Symmetry.

(** ** The tracker *)

Section TrackerProps.
Import Pats Tracker.

Lemma indexOf_found (key : Flexagon) (ks : list Flexagon) :
  In key ks ->
  exists i, indexOf key ks = Some i /\ i < length ks
            /\ nth_error ks i = Some key.
Proof.
  induction ks as [|k ks IH]; intros Hin; [destruct Hin|].
  simpl. destruct (compareFlexagon key k) eqn:E.
  - apply compareFlexagon_eq in E. subst. exists 0. simpl.
    repeat split; [lia].
  - destruct Hin as [->|Hin]; [now rewrite compareFlexagon_refl in E|].
    destruct (IH Hin) as (i & -> & Hi & Hn). exists (S i). simpl.
    repeat split; [lia|exact Hn].
  - destruct Hin as [->|Hin]; [now rewrite compareFlexagon_refl in E|].
    destruct (IH Hin) as (i & -> & Hi & Hn). exists (S i). simpl.
    repeat split; [lia|exact Hn].
Qed.

Lemma indexOf_member (key : Flexagon) (ks : list Flexagon) (i : nat) :
  indexOf key ks = Some i -> In key ks.
Proof.
  revert i; induction ks as [|k ks IH]; intros i; simpl; [discriminate|].
  destruct (compareFlexagon key k) eqn:E.
  - intros _. left. symmetry. now apply compareFlexagon_eq.
  - destruct (indexOf key ks) as [j|]; [|discriminate].
    intros _. right. now apply (IH j).
  - destruct (indexOf key ks) as [j|]; [|discriminate].
    intros _. right. now apply (IH j).
Qed.

Lemma indexOf_missing (key : Flexagon) (ks : list Flexagon) :
  ~ In key ks -> indexOf key ks = None.
Proof.
  induction ks as [|k ks IH]; intros Hnot; [reflexivity|].
  simpl. destruct (compareFlexagon key k) eqn:E.
  - apply compareFlexagon_eq in E. subst. exfalso. apply Hnot. now left.
  - rewrite IH; [reflexivity|]. intros Hin. apply Hnot. now right.
  - rewrite IH; [reflexivity|]. intros Hin. apply Hnot. now right.
Qed.

Lemma indexOf_appended (key : Flexagon) (ks : list Flexagon) :
  ~ In key ks -> indexOf key (ks ++ [key]) = Some (length ks).
Proof.
  induction ks as [|k ks IH]; intros Hnot; simpl.
  - now rewrite compareFlexagon_refl.
  - destruct (compareFlexagon key k) eqn:E.
    + apply compareFlexagon_eq in E. subst. exfalso. apply Hnot. now left.
    + rewrite IH; [reflexivity|]. intros Hin. apply Hnot. now right.
    + rewrite IH; [reflexivity|]. intros Hin. apply Hnot. now right.
Qed.

Lemma findMaybeAdd_keys (f : Flexagon) (t : TrackerState) (key : Flexagon) :
  In key (keys (snd (findMaybeAdd f t)))
  <-> In key (keys t) \/ key = canonicalKey f.
Proof.
  unfold findMaybeAdd.
  destruct (indexOf (canonicalKey f) (keys t)) as [i|] eqn:E; simpl.
  - split; [now left|]. intros [Hin| ->]; [exact Hin|].
    exact (indexOf_member _ _ _ E).
  - rewrite in_app_iff. simpl. intuition.
Qed.

(** The keys a tracker holds are the canonical keys of the flexagons it
    was given. *)
Lemma trackerAfter_keys (f0 : Flexagon) (fs : list Flexagon)
  (key : Flexagon) :
  In key (keys (trackerAfter f0 fs))
  <-> exists g, In g (f0 :: fs) /\ key = canonicalKey g.
Proof.
  unfold trackerAfter.
  assert (G : forall t,
    In key (keys (fold_left (fun t f => snd (findMaybeAdd f t)) fs t))
    <-> In key (keys t) \/ exists g, In g fs /\ key = canonicalKey g).
  { induction fs as [|f fs IH]; intros t; simpl.
    - split; [now left|]. intros [Hin|(g & [] & _)]. exact Hin.
    - rewrite IH, findMaybeAdd_keys. split.
      + intros [[Hin| ->]|(g & Hg & ->)].
        * now left.
        * right. exists f. auto.
        * right. exists g. auto.
      + intros [Hin|(g & [<-|Hg] & ->)].
        * left. now left.
        * left. now right.
        * right. exists g. auto. }
  rewrite G. simpl. split.
  - intros [[<-|[]]|(g & Hg & ->)].
    + exists f0. auto.
    + exists g. auto.
  - intros (g & [<-|Hg] & ->).
    + left. now left.
    + right. exists g. auto.
Qed.

(** C4: for a tracker built by [new Tracker(f0)] and any calls of
    [findMaybeAdd], and any flexagon [f]: if the state of [f] (its class
    under rotation, reflection and turning over) is already tracked, every
    flexagon [f'] of that class gets the same existing index back and the
    tracker, hence [getTotalStates], is unchanged; if the state is new,
    [findMaybeAdd f] returns null and raises [getTotalStates] by one, and
    from then on every flexagon of the class gets the new index back with
    no further change. *)
Theorem findMaybeAdd_dedup (f0 : Flexagon) (fs : list Flexagon)
  (f : Flexagon) :
  ((exists g, In g (f0 :: fs) /\ sameState g f) ->
   exists i : nat,
     i < getTotalStates (trackerAfter f0 fs)
     /\ nth_error (keys (trackerAfter f0 fs)) i = Some (canonicalKey f)
     /\ forall f', sameState f f' ->
          findMaybeAdd f' (trackerAfter f0 fs)
          = (Some i, trackerAfter f0 fs))
  /\ ((forall g, In g (f0 :: fs) -> ~ sameState g f) ->
      fst (findMaybeAdd f (trackerAfter f0 fs)) = None
      /\ getTotalStates (snd (findMaybeAdd f (trackerAfter f0 fs)))
         = S (getTotalStates (trackerAfter f0 fs))
      /\ forall f', sameState f f' ->
           findMaybeAdd f' (snd (findMaybeAdd f (trackerAfter f0 fs)))
           = (Some (getTotalStates (trackerAfter f0 fs)),
              snd (findMaybeAdd f (trackerAfter f0 fs)))).
Proof.
  set (t := trackerAfter f0 fs). split.
  - intros (g & Hg & Hsame).
    assert (Hin : In (canonicalKey f) (keys t)).
    { apply trackerAfter_keys. exists g. split; [exact Hg|].
      symmetry. now apply canonicalKey_sameState. }
    destruct (indexOf_found _ _ Hin) as (i & Hi & Hlt & Hnth).
    exists i. repeat split; [exact Hlt|exact Hnth|].
    intros f' Hf'. unfold findMaybeAdd.
    apply canonicalKey_sameState in Hf'. now rewrite <- Hf', Hi.
  - intros Hnew.
    assert (Hnot : ~ In (canonicalKey f) (keys t)).
    { intros Hin. apply trackerAfter_keys in Hin.
      destruct Hin as (g & Hg & Ekey).
      apply (Hnew g Hg). apply canonicalKey_sameState. now symmetry. }
    assert (E : findMaybeAdd f t
                = (None, mkTracker (keys t ++ [canonicalKey f]))).
    { unfold findMaybeAdd. now rewrite (indexOf_missing _ _ Hnot). }
    rewrite E. simpl. repeat split.
    + unfold getTotalStates. simpl. rewrite length_app. simpl. lia.
    + intros f' Hf'. unfold findMaybeAdd. simpl keys.
      apply canonicalKey_sameState in Hf'.
      rewrite <- Hf', (indexOf_appended _ _ Hnot). reflexivity.
Qed.

(** C5: once [[1,2],3,[4,5],6] is tracked, its rotation
    [[4,5],6,[1,2],3] and its flip-and-rotate [-3,[-2,-1],-6,[-5,-4]] are
    both found at index 0, and [getTotalStates] stays 1: the three have the
    same canonical key. *)
Theorem rotated_and_flipped_are_tracked :
  rotated = rotateBy 2 original
  /\ flipped = rotateBy 2 (turnOver original)
  /\ getTotalStates (newTracker original) = 1
  /\ findMaybeAdd original (newTracker original)
     = (Some 0, newTracker original)
  /\ findMaybeAdd rotated (newTracker original)
     = (Some 0, newTracker original)
  /\ findMaybeAdd flipped (newTracker original)
     = (Some 0, newTracker original)
  /\ getTotalStates (trackerAfter original [original; rotated; flipped]) = 1
  /\ canonicalKey rotated = canonicalKey original
  /\ canonicalKey flipped = canonicalKey original.
Proof.
  repeat split; vm_compute; reflexivity.
Qed.

(** The two cases of [findMaybeAdd_dedup] on the flexagons of the tracker
    test: the rotation of the tracked flexagon is a known state, the
    flexagon [1,[2,3],4,[5,6]] is a new one. *)
Lemma findMaybeAdd_dedup_witness :
  (exists i : nat,
     i < getTotalStates (trackerAfter original [])
     /\ nth_error (keys (trackerAfter original [])) i
        = Some (canonicalKey rotated)
     /\ forall f', sameState rotated f' ->
          findMaybeAdd f' (trackerAfter original [])
          = (Some i, trackerAfter original []))
  /\ (fst (findMaybeAdd other (trackerAfter original [])) = None
      /\ getTotalStates (snd (findMaybeAdd other (trackerAfter original [])))
         = S (getTotalStates (trackerAfter original []))
      /\ forall f', sameState other f' ->
           findMaybeAdd f' (snd (findMaybeAdd other (trackerAfter original [])))
           = (Some (getTotalStates (trackerAfter original [])),
              snd (findMaybeAdd other (trackerAfter original [])))).
Proof.
  split.
  - apply (proj1 (findMaybeAdd_dedup original [] rotated)).
    exists original. split; [now left|].
    apply same_trans with (rotateRight original); apply same_move.
    + apply move_rotate.
    + exact (move_rotate (rotateRight original)).
  - apply (proj2 (findMaybeAdd_dedup original [] other)).
    intros g [<-|[]] Hsame. apply canonicalKey_sameState in Hsame.
    vm_compute in Hsame. discriminate.
Defined.

End TrackerProps.

(** ** Atomic patterns: parsing what was printed *)

Section AtomicRoundTrip.
Import Pats Atomic.
Local Open Scope char_scope.



Ltac each_char c :=
  destruct c as [[] [] [] [] [] [] [] []]; try discriminate; try reflexivity.

Lemma parseUint_stops (r : list ascii) :
  noDigitAhead r -> parseUint r = (Nil, r).
Proof.
  destruct r as [|c r]; [reflexivity|]. unfold noDigitAhead, isDigit.
  simpl. destruct (digitOf c); [discriminate|reflexivity].
Qed.

Lemma parseUint_print (d : Decimal.uint) (r : list ascii) :
  noDigitAhead r -> parseUint (printUint d ++ r) = (d, r).
Proof.
  intros Hr. induction d; simpl; try rewrite IHd; try reflexivity.
  now apply parseUint_stops.
Qed.

Lemma printUint_start (d : Decimal.uint) :
  d <> Nil -> exists c rest, printUint d = c :: rest /\ isDigit c = true.
Proof.
  destruct d; intros Hd; try congruence; simpl; eauto.
Qed.

Lemma parseZ_digits (c : ascii) (s : list ascii) :
  isDigit c = true ->
  parseZ (c :: s) =
  match parseUint (c :: s) with
  | (Nil, _) => None
  | (d, rest) => Some (Z.of_int (Decimal.Pos d), rest)
  end.
Proof. unfold isDigit. each_char c. Qed.

Lemma parseZ_print (z : Z) (r : list ascii) :
  noDigitAhead r -> parseZ (printZ z ++ r) = Some (z, r).
Proof.
  intros Hr. unfold printZ.
  pose proof (DecimalZ.of_to z) as Hz.
  destruct (Z.to_int z) as [d|d] eqn:E.
  - assert (Hd : d <> Nil).
    { destruct z; simpl in E; inversion E; subst.
      - discriminate.
      - apply DecimalPos.Unsigned.to_uint_nonnil. }
    destruct (printUint_start d Hd) as (c & rest & Hp & Hc).
    rewrite Hp. simpl app. rewrite parseZ_digits by exact Hc.
    change (c :: rest ++ r) with ((c :: rest) ++ r).
    rewrite <- Hp, parseUint_print by exact Hr.
    destruct d; try congruence; now rewrite Hz.
  - assert (Hd : d <> Nil).
    { destruct z; simpl in E; inversion E; subst.
      apply DecimalPos.Unsigned.to_uint_nonnil. }
    change (("-" :: printUint d) ++ r) with ("-" :: (printUint d ++ r)).
    unfold parseZ. rewrite parseUint_print by exact Hr.
    destruct d; try congruence; now rewrite Hz.
Qed.


Lemma printZ_start (z : Z) (r : list ascii) :
  exists c rest, printZ z ++ r = c :: rest
    /\ (isDigit c = true
        \/ c = "-" /\ exists c' rest', rest = c' :: rest'
                                       /\ isDigit c' = true).
Proof.
  unfold printZ. destruct (Z.to_int z) as [d|d] eqn:E.
  - assert (Hd : d <> Nil).
    { destruct z; simpl in E; inversion E; subst.
      - discriminate.
      - apply DecimalPos.Unsigned.to_uint_nonnil. }
    destruct (printUint_start d Hd) as (c & rest & -> & Hc).
    exists c, (rest ++ r). auto.
  - assert (Hd : d <> Nil).
    { destruct z; simpl in E; inversion E; subst.
      apply DecimalPos.Unsigned.to_uint_nonnil. }
    destruct (printUint_start d Hd) as (c & rest & -> & Hc).
    exists "-", ((c :: rest) ++ r). split; [reflexivity|].
    right. split; [reflexivity|]. exists c, (rest ++ r). auto.
Qed.

Lemma printPat_start (t : LeafTree) (r : list ascii) :
  exists c rest, printPat t ++ r = c :: rest
    /\ isPatStart c = true /\ startsPat (c :: rest) = true.
Proof.
  destruct t as [id|ts].
  - simpl. destruct (printZ_start id r)
      as (c & rest & -> & [Hc|(-> & c' & rest' & -> & Hc')]).
    + exists c, rest. split; [reflexivity|].
      revert Hc. unfold isDigit. each_char c; auto.
    + exists "-", (c' :: rest'). split; [reflexivity|].
      split; [reflexivity|]. simpl. unfold isDigit in Hc'.
      destruct (digitOf c'); [reflexivity|discriminate].
  - simpl. eauto.
Qed.

Lemma skipSpaces_start (c : ascii) (s : list ascii) :
  isPatStart c = true -> skipSpaces (c :: s) = c :: s.
Proof. unfold isPatStart, isDigit. each_char c. Qed.

Lemma parsePat_leaf (fuel : nat) (c : ascii) (s : list ascii) :
  isPatStart c = true -> c <> "[" ->
  parsePat (S fuel) (c :: s) =
  match parseZ (c :: s) with
  | Some (id, s1) => Some (Leaf id, s1)
  | None => None
  end.
Proof.
  unfold isPatStart, isDigit. intros Hc Hb.
  each_char c. congruence.
Qed.

Lemma parsePat_group (fuel : nat) (c : ascii) (s : list ascii) :
  isPatStart c = true ->
  parsePat (S fuel) ("[" :: c :: s) =
  match parseItems fuel (c :: s) with
  | Some (ts, s3) => Some (Group ts, s3)
  | None => None
  end.
Proof. unfold isPatStart, isDigit. each_char c. Qed.


Lemma parseItems_print (ts : list LeafTree) :
  Forall (fun t => forall fuel r, patSize t <= fuel -> noDigitAhead r ->
                     parsePat fuel (printPat t ++ r) = Some (t, r)) ts ->
  ts <> [] ->
  forall fuel r, itemsSize ts <= fuel ->
    parseItems fuel (joinItems (List.map printPat ts) ++ r) = Some (ts, r).
Proof.
  induction 1 as [|t ts Ht _ IH]; intros Hne fuel r Hfuel; [congruence|].
  unfold itemsSize in Hfuel. simpl in Hfuel.
  destruct fuel as [|fuel]; [lia|].
  simpl joinItems. rewrite <- app_assoc.
  destruct (printPat_start t
              (match List.map printPat ts with
               | [] => ["]"]
               | _ :: _ => "," :: joinItems (List.map printPat ts)
               end ++ r)) as (c & rest & Hp & Hc & _).
  simpl parseItems. rewrite Hp, (skipSpaces_start c rest Hc), <- Hp.
  destruct ts as [|t' ts'].
  - simpl. rewrite Ht; [reflexivity|lia|reflexivity].
  - rewrite Ht; [|lia|reflexivity].
    cbn [List.map app skipSpaces].
    change (joinItems (printPat t' :: List.map printPat ts'))
      with (joinItems (List.map printPat (t' :: ts'))).
    rewrite IH; [reflexivity|discriminate|].
    unfold itemsSize. simpl. simpl in Hfuel. lia.
Qed.

Lemma parsePat_print (t : LeafTree) :
  forall fuel r, patSize t <= fuel -> noDigitAhead r ->
    parsePat fuel (printPat t ++ r) = Some (t, r).
Proof.
  induction t as [id|ts IH] using LeafTree_nested_ind; intros fuel r Hfuel Hr.
  - destruct fuel as [|fuel]; [simpl in Hfuel; lia|].
    destruct (printPat_start (Leaf id) r) as (c & rest & Hp & Hc & _).
    assert (Hb : c <> "[").
    { simpl in Hp. destruct (printZ_start id r)
        as (c0 & rest0 & Hp0 & [Hd|(-> & _)]).
      - rewrite Hp0 in Hp. inversion Hp; subst. intros ->. discriminate.
      - rewrite Hp0 in Hp. inversion Hp; subst. discriminate. }
    rewrite Hp, (parsePat_leaf fuel c rest Hc Hb), <- Hp. simpl printPat.
    now rewrite parseZ_print.
  - destruct fuel as [|fuel]; [simpl in Hfuel; lia|].
    destruct ts as [|t ts]; [reflexivity|].
    destruct (printPat_start t
                (match List.map printPat ts with
                 | [] => ["]"]
                 | _ :: _ => "," :: joinItems (List.map printPat ts)
                 end ++ r)) as (c & rest & Hp & Hc & _).
    assert (Hj : joinItems (List.map printPat (t :: ts)) ++ r = c :: rest).
    { simpl joinItems. now rewrite <- app_assoc. }
    change (printPat (Group (t :: ts)) ++ r)
      with ("[" :: (joinItems (List.map printPat (t :: ts)) ++ r)).
    rewrite Hj, (parsePat_group fuel c rest Hc), <- Hj.
    rewrite (parseItems_print (t :: ts) IH); [reflexivity|discriminate|].
    simpl in Hfuel. unfold itemsSize. simpl. lia.
Qed.

Lemma itemsSize_length (ts : list LeafTree) :
  Forall (fun t => patSize t <= length (printPat t)) ts ->
  itemsSize ts <= length (joinItems (List.map printPat ts)).
Proof.
  unfold itemsSize.
  induction 1 as [|t ts Ht _ IH]; simpl; [lia|].
  rewrite length_app. destruct ts as [|t' ts']; simpl in *; lia.
Qed.

Lemma patSize_length (t : LeafTree) : patSize t <= length (printPat t).
Proof.
  induction t as [id|ts IH] using LeafTree_nested_ind.
  - destruct (printZ_start id []) as (c & rest & Hp & _).
    rewrite app_nil_r in Hp. simpl. rewrite Hp. simpl. lia.
  - simpl. apply le_n_S. now apply itemsSize_length.
Qed.

Lemma printConnected_length (cp : ConnectedPat) :
  S (patSize (pat cp)) <= length (printConnected cp).
Proof.
  unfold printConnected. cbn [length]. rewrite length_app.
  pose proof (patSize_length (pat cp)). simpl. lia.
Qed.

(** The printed form of a side is long enough to serve as fuel. *)
Lemma printed_side_bounds (cps : list ConnectedPat) :
  length cps <= length (concat (List.map printConnected cps))
  /\ Forall (fun cp => patSize (pat cp)
                       <= length (concat (List.map printConnected cps))) cps.
Proof.
  induction cps as [|cp cps [IHl IHf]];
    cbn [concat List.map length]; [split; [lia|constructor]|].
  rewrite length_app. pose proof (printConnected_length cp) as Hcp. split.
  - lia.
  - constructor; [lia|].
    eapply List.Forall_impl; [|exact IHf]. cbv beta. intros a Ha. lia.
Qed.

Lemma printConnected_cons (t : LeafTree) (d : PatDirection)
  (cps : list ConnectedPat) (r : list ascii) :
  concat (List.map printConnected (mkConnected t d :: cps)) ++ r
  = " " :: (printPat t
            ++ " " :: printDirection d
                   :: (concat (List.map printConnected cps) ++ r)).
Proof.
  cbn [List.map concat]. unfold printConnected at 1. cbn [pat direction].
  rewrite <- !app_assoc. cbn [app]. rewrite <- !app_assoc. reflexivity.
Qed.

Lemma parseConnected_succ (fuel n : nat) (s : list ascii) :
  parseConnected fuel (S n) (" " :: s) =
  if startsPat (skipSpaces s) then
    match parsePat fuel (skipSpaces s) with
    | Some (t, s1) =>
        match parseDirection (skipSpaces s1) with
        | Some (d, s2) =>
            match parseConnected fuel n s2 with
            | Some (cps, s3) => Some (mkConnected t d :: cps, s3)
            | None => None
            end
        | None => None
        end
    | None => None
    end
  else Some ([], skipSpaces s).
Proof. reflexivity. Qed.

Lemma parseConnected_print (cps : list ConnectedPat) :
  forall fuel n r,
    length cps < n ->
    Forall (fun cp => patSize (pat cp) <= fuel) cps ->
    startsPat (skipSpaces r) = false ->
    parseConnected fuel n (concat (List.map printConnected cps) ++ r)
    = Some (cps, skipSpaces r).
Proof.
  induction cps as [|[t d] cps IH]; intros fuel n r Hn Hfuel Hr.
  - destruct n as [|n]; [simpl in Hn; lia|]. simpl. now rewrite Hr.
  - destruct n as [|n]; [simpl in Hn; lia|].
    inversion Hfuel as [|? ? Ht Hrest]; subst. simpl in Ht.
    rewrite printConnected_cons.
    set (tail := concat (List.map printConnected cps) ++ r).
    destruct (printPat_start t (" " :: printDirection d :: tail))
      as (c & rest & Hp & Hc & Hs).
    rewrite parseConnected_succ.
    rewrite Hp, (skipSpaces_start c rest Hc), Hs, <- Hp.
    rewrite parsePat_print; [|exact Ht|reflexivity].
    replace (skipSpaces (" " :: printDirection d :: tail))
      with (printDirection d :: tail) by (destruct d; reflexivity).
    replace (parseDirection (printDirection d :: tail))
      with (Some (d, tail)) by (destruct d; reflexivity).
    subst tail. rewrite IH; [reflexivity| |exact Hrest|exact Hr].
    simpl in Hn. lia.
Qed.

Lemma parsePatternWith_print (p : AtomicPattern) (fuel : nat) :
  length (printPattern p) <= fuel ->
  parsePatternWith fuel (printPattern p) = inl p.
Proof.
  destruct p as [ol lefts rights or]. unfold printPattern. simpl.
  intros Hfuel. rewrite !length_app in Hfuel. cbn [length] in Hfuel.
  rewrite !length_app in Hfuel. cbn [length] in Hfuel.
  set (L := concat (List.map printConnected (rev lefts))) in *.
  set (R := concat (List.map printConnected rights)) in *.
  destruct (printed_side_bounds (rev lefts)) as [HLn HLf].
  destruct (printed_side_bounds rights) as [HRn HRf].
  fold L in HLn, HLf. fold R in HRn, HRf.
  unfold parsePatternWith.
  replace (parseRemainder
             (skipSpaces (printRemainder ol
                          ++ L ++ " " :: "/" :: R ++ " " :: printRemainder or)))
    with (Some (ol, L ++ " " :: "/" :: R ++ " " :: printRemainder or))
    by (destruct ol; reflexivity).
  subst L. rewrite parseConnected_print.
  - cbn [skipSpaces]. cbv iota beta. subst R. rewrite parseConnected_print.
    + replace (skipSpaces (" " :: printRemainder or))
        with (printRemainder or) by (destruct or; reflexivity).
      replace (parseRemainder (printRemainder or))
        with (Some (or, @nil ascii)) by (destruct or; reflexivity).
      simpl. now rewrite rev_involutive.
    + lia.
    + eapply List.Forall_impl; [|exact HRf]. cbv beta. intros a Ha. lia.
    + destruct or; reflexivity.
  - lia.
  - eapply List.Forall_impl; [|exact HLf]. cbv beta. intros a Ha. lia.
  - reflexivity.
Qed.

(** C7: parsing the string form of any atomic pattern gives the pattern
    back.  Hence a string that parses prints, from the parsed pattern, to
    the canonical form of that pattern: a string that parses to the same
    pattern and that is reproduced when it is parsed and printed again. *)
Theorem atomicPattern_roundtrip (p : AtomicPattern) :
  stringToAtomicPattern (atomicPatternToString p) = inl p
  /\ (forall s : string,
        stringToAtomicPattern s = inl p ->
        stringToAtomicPattern (atomicPatternToString p)
        = stringToAtomicPattern s)
  /\ (forall q : AtomicPattern,
        stringToAtomicPattern (atomicPatternToString p) = inl q ->
        atomicPatternToString q = atomicPatternToString p).
Proof.
  assert (E : stringToAtomicPattern (atomicPatternToString p) = inl p).
  { unfold stringToAtomicPattern, atomicPatternToString.
    rewrite list_ascii_of_string_of_list_ascii.
    unfold parsePattern. now apply parsePatternWith_print. }
  split; [exact E|]. split.
  - intros s Hs. now rewrite E, Hs.
  - intros q Hq. rewrite E in Hq. now inversion Hq.
Qed.

(** A test literal that is not in canonical form (a space after the comma)
    prints in canonical form once parsed. *)
Lemma parsed_literal_prints_canonical :
  match stringToAtomicPattern "a [-2, 1] > -3 > / [-6,[-4,5]] > -7 > b" with
  | inl p => atomicPatternToString p
             = "a [-2,1] > -3 > / [-6,[-4,5]] > -7 > b"%string
  | inr _ => False
  end.
Proof. vm_compute. reflexivity. Qed.

End AtomicRoundTrip.

(** ** Formulas on atomic patterns *)

Section FormulaProps.
Import Pats Atomic.
Local Open Scope string_scope.

(** C3 (counterexample): on the input [a / 1 > 2 < -b] the formula
    [~ Ur ~] cannot be applied: after [~] the pat next to the hinge is the
    single leaf -1, which the folded pair of [Ur]'s pattern [[-2,1]] does
    not match, whatever the directions; no output string is produced. *)
Lemma formula_fails_on_unfolded_input :
  (exists e, testFormula "~ Ur ~" "a / 1 > 2 < -b" = inr (FailedToApply e))
  /\ testFormula "~ Ur ~" "a / 1 > 2 < -b" <> inl "a / [1,-2] < b"
  /\ testFormula "~" "a / 1 > 2 < -b" = inl "-a / -1 < -2 > b"
  /\ (forall b, matchPat (Group [Leaf (-2); Leaf 1]) (Leaf (-1)) b = None).
Proof.
  split; [|split; [|split]].
  - eexists. vm_compute. reflexivity.
  - vm_compute. discriminate.
  - vm_compute. reflexivity.
  - reflexivity.
Qed.

(** C3 (amended): applying the formula [~ Ur ~] (the derived flex [Ul])
    to the input [a / [1,-2] < b] succeeds and produces exactly
    [a / 1 > 2 < -b], as the repository's test states it; the registered
    flex [Ul] gives the same, and it is the inverse formula that leads
    from [a / 1 > 2 < -b] back to [a / [1,-2] < b]. *)
Theorem formula_Ul_unfolds :
  testFormula "~ Ur ~" "a / [1,-2] < b" = inl "a / 1 > 2 < -b"
  /\ testFormula "Ul" "a / [1,-2] < b" = inl "a / 1 > 2 < -b"
  /\ testFormula "~ Ur' ~" "a / 1 > 2 < -b" = inl "a / [1,-2] < b".
Proof. repeat split; vm_compute; reflexivity. Qed.

(** The model reproduces the other formulas of the test file that are
    built from the base flexes and [Ul]. *)
Lemma test_formulas_reproduced :
  testFormula "<'" "a / 1 < b" = inl "a 1 < / b"
  /\ testFormula "^~" "a / b" = inl "b / a"
  /\ testFormula "^ Ur ^" "a [2,-1] > / b" = inl "-a 1 > 2 < / b"
  /\ testFormula "^~ Ur ~^" "a [-2,1] < / b" = inl "-a 2 < 1 > / b"
  /\ testFormula "Ur> ^Ur'^" "a 1 > / [-3,2] > b"
     = inl "-a [2,-1] > / 3 > -b"
  /\ testFormula "Ul> ^Ul'^" "a 4 < / [5,-6] < b"
     = inl "-a [-4,5] < / 6 < -b"
  /\ testFormula "Ur >^ Ur' > Ul ^" "a [-2,1] > -3 > / [5,-4] > b"
     = inl "a 1 < 2 > / [-4,3] > -5 > -b"
  /\ testFormula "Ur> ^Ur'^ >> Ul> ^Ul'^ >> Ur> ^Ur'^"
       "a 1 > / [-3,2] > -4 > [6,-5] > 7 > [-9,8] > b"
     = inl "-a [2,-1] > 3 > [-5,4] > -6 > [8,-7] > / 9 > -b"
  /\ testFormula "> Ul > Ul <<<< Ur' Ul' >>"
       "a 1 < 2 > / 3 > [4,[6,-5]] < b"
     = inl "a [[-2,1],3] < 4 > / 5 > 6 < b".
Proof. repeat split; vm_compute; reflexivity. Qed.

End FormulaProps.

(** ** The explorer on the flexagon of testExplore.ts *)

Section ExploreProps.
Import Pats Tracker Explore.

(** The start of testExplore.ts: one tracked state, none explored. *)
Lemma newExplore_counts :
  counts (true, newExplore original testFlexes) = (true, 1, 0).
Proof. reflexivity. Qed.

(** With [apply] keeping the first match only, as the spec describes it,
    the loop stops after 14 states: the fifteenth call returns false and
    both counters stand at 14. *)
Lemma checkNext_first_match_counts :
  counts (callsUntilDone checkNext 1 (newExplore original testFlexes))
  = (true, 3, 1)
  /\ counts (callsUntilDone checkNext 14 (newExplore original testFlexes))
     = (true, 14, 14)
  /\ counts (callsUntilDone checkNext 15 (newExplore original testFlexes))
     = (false, 14, 14).
Proof. repeat split; vm_compute; reflexivity. Qed.

(** With every flex tried at every orientation of the popped flexagon, the
    loop ends with 21 tracked and 21 explored states (the twenty-second
    call returns false); the first call brings the tracked states to 7. *)
Lemma checkNextEverywhere_counts :
  counts (callsUntilDone checkNextEverywhere 1
            (newExplore original testFlexes)) = (true, 7, 1)
  /\ counts (callsUntilDone checkNextEverywhere 21
               (newExplore original testFlexes)) = (true, 21, 21)
  /\ counts (callsUntilDone checkNextEverywhere 22
               (newExplore original testFlexes)) = (false, 21, 21).
Proof. repeat split; vm_compute; reflexivity. Qed.

End ExploreProps.

(** ** From the pieces of a name to a script *)

Section NameScriptProps.
Import NameScript.

(** The numbers of pats that the table of Greek prefixes can give. *)
Lemma greekPrefixToNumber_entry (prefix : string) (n : Z) :
  greekPrefixToNumber prefix = Some n -> In (prefix, n) greekPrefixes.
Proof.
  unfold greekPrefixToNumber.
  destruct (List.find _ greekPrefixes) as [[key v]|] eqn:F; [|discriminate].
  intros [= <-]. apply List.find_some in F. destruct F as [Hin Heq].
  apply String.eqb_eq in Heq. simpl in Heq. now subst.
Qed.

Lemma greekPrefixes_numbers (prefix : string) (n : Z) :
  In (prefix, n) greekPrefixes ->
  In n (List.map Z.of_nat (seq 2 23)).
Proof.
  intros Hin. apply (in_map snd) in Hin. simpl in Hin.
  vm_compute. exact Hin.
Qed.

(** X11: [greekPrefixToNumber] knows the numbers from 2 to 24 and no
    other, and no two prefixes stand for the same number. *)
Theorem greekPrefixToNumber_range (prefix : string) (n : Z) :
  greekPrefixToNumber prefix = Some n ->
  (2 <= n <= 24)%Z
  /\ forall other, greekPrefixToNumber other = Some n -> other = prefix.
Proof.
  intros Hp. apply greekPrefixToNumber_entry in Hp. split.
  - apply greekPrefixes_numbers in Hp. apply in_map_iff in Hp.
    destruct Hp as (k & <- & Hk). apply in_seq in Hk. lia.
  - intros other Ho. apply greekPrefixToNumber_entry in Ho.
    simpl in Hp, Ho.
    repeat (destruct Hp as [Hp|Hp]; [injection Hp as <- <-|]);
      try (destruct Hp);
      repeat (destruct Ho as [Ho|Ho];
              [first [discriminate Ho | injection Ho as <-; reflexivity]|]);
      destruct Ho.
Qed.

Lemma adjectiveToNumber_sides (adj : string) (sides : Z) :
  adjectiveToNumber adj = Some sides ->
  In sides (List.map Z.of_nat (seq 3 14)).
Proof.
  unfold adjectiveToNumber.
  destruct (List.find _ adjectives) as [[key v]|] eqn:F; [|discriminate].
  intros [= <-]. apply List.find_some in F. destruct F as [Hin _].
  apply (in_map snd) in Hin. simpl in Hin. vm_compute. exact Hin.
Qed.

Lemma greekPrefixToNumber_numbers (prefix : string) (n : Z) :
  greekPrefixToNumber prefix = Some n ->
  In n (List.map Z.of_nat (seq 2 23)).
Proof.
  intros Hp. eapply greekPrefixes_numbers, greekPrefixToNumber_entry, Hp.
Qed.

(** Case analysis on a number of a finite range. *)
Ltac each_number H :=
  vm_compute in H;
  repeat (destruct H as [H|H]; [rewrite <- H; clear H|]);
  [..|destruct H].

(** The loops of [repeat] in the ring scripts end; they run once for every
    started third, or quarter, of the number of pats. *)
Lemma repeat_thirds (n : Z) :
  In n (List.map Z.of_nat (seq 2 23)) ->
  exists d, repeat [true; false; true] (toNumber n / 3)%float = Some d
            /\ Z.of_nat (length d) = (3 * ((n + 2) / 3))%Z.
Proof.
  intros Hn. each_number Hn;
    (match goal with
     | |- exists d, ?r = Some d /\ _ =>
         let v := eval vm_compute in r in
         match v with
         | Some ?d => exists d; split;
                      [vm_compute; reflexivity|vm_compute; reflexivity]
         end
     end).
Qed.

Lemma repeat_quarters (n : Z) :
  In n (List.map Z.of_nat (seq 2 23)) ->
  exists d, repeat [true; false; false; true] (toNumber n / 4)%float = Some d
            /\ Z.of_nat (length d) = (4 * ((n + 3) / 4))%Z.
Proof.
  intros Hn. each_number Hn;
    (match goal with
     | |- exists d, ?r = Some d /\ _ =>
         let v := eval vm_compute in r in
         match v with
         | Some ?d => exists d; split;
                      [vm_compute; reflexivity|vm_compute; reflexivity]
         end
     end).
Qed.

(** What the tests on the number of sides say, in integers. *)
Lemma sidesAre_quotient (n sides : Z) :
  In n (List.map Z.of_nat (seq 2 23)) ->
  In sides (List.map Z.of_nat (seq 3 14)) ->
  (sidesAre (Some sides) 8 (2 * toNumber n / 3)%float = true ->
   (3 * sides = 2 * n)%Z)
  /\ (sidesAre (Some sides) 3 (toNumber n / 4)%float = true ->
      (4 * sides = n)%Z)
  /\ (sidesAre (Some sides) 6 (toNumber n / 2)%float = true ->
      (2 * sides = n)%Z)
  /\ (sidesAre (Some sides) 3 (toNumber n / 2)%float = true ->
      (2 * sides = n)%Z).
Proof.
  intros Hn Hs. each_number Hn; each_number Hs;
    repeat apply conj; intros H; vm_compute in H;
    first [discriminate H | reflexivity].
Qed.

(** X20: the tests that compare the number of sides with a quotient of
    the number of pats, made on doubles, are exact for the numbers of the
    two tables: each holds exactly when the integers stand in that
    ratio. *)
Theorem sides_tests_are_exact (adj prefix : string) (sides n : Z) :
  adjectiveToNumber adj = Some sides ->
  greekPrefixToNumber prefix = Some n ->
  (sidesAre (Some sides) 8 (2 * toNumber n / 3)%float = true
   <-> (8 <= sides /\ 3 * sides = 2 * n)%Z)
  /\ (sidesAre (Some sides) 3 (toNumber n / 4)%float = true
      <-> (3 <= sides /\ 4 * sides = n)%Z)
  /\ (sidesAre (Some sides) 6 (toNumber n / 2)%float = true
      <-> (6 <= sides /\ 2 * sides = n)%Z)
  /\ (sidesAre (Some sides) 3 (toNumber n / 2)%float = true
      <-> (3 <= sides /\ 2 * sides = n)%Z).
Proof.
  intros Hs Hn. apply adjectiveToNumber_sides in Hs.
  apply greekPrefixToNumber_numbers in Hn.
  each_number Hn; each_number Hs;
    repeat apply conj;
    (let T := fresh "Htest" in
     intros T;
     first [vm_compute in T; discriminate T | lia | vm_compute; reflexivity]).
Qed.

Lemma anglesAndDirections_some (a b : float) (r : option (list bool))
  (d : list bool) :
  r = Some d ->
  anglesAndDirections a b r = Some (Items [anglesItem a b; directionsItem d]).
Proof. now intros ->. Qed.

Lemma overallShapeToScript_cases (overallShape patsPrefix : string)
  (leafShape : option string) (n : Z) :
  greekPrefixToNumber patsPrefix = Some n ->
  exists r, overallShapeToScript overallShape patsPrefix leafShape = Some r
            /\ shapeResult overallShape patsPrefix leafShape n r.
Proof.
  intros Hp. pose proof (greekPrefixToNumber_numbers _ _ Hp) as Hn.
  unfold overallShapeToScript. rewrite Hp. cbv zeta.
  assert (Hq : forall sides, adjectiveToNumber overallShape = Some sides ->
               (sidesAre (Some sides) 8 (2 * toNumber n / 3)%float = true ->
                (3 * sides = 2 * n)%Z)
               /\ (sidesAre (Some sides) 3 (toNumber n / 4)%float = true ->
                   (4 * sides = n)%Z)
               /\ (sidesAre (Some sides) 6 (toNumber n / 2)%float = true ->
                   (2 * sides = n)%Z)).
  { intros sides Hs. apply adjectiveToNumber_sides in Hs.
    destruct (sidesAre_quotient n sides Hn Hs) as (H1 & H2 & H3 & _).
    auto. }
  destruct (repeat_thirds n Hn) as (d3 & Hd3 & Hl3).
  destruct (repeat_quarters n Hn) as (d4 & Hd4 & Hl4).
  unfold computeRing1Script, computeRing2Script, computeRing3Script.
  rewrite Hd3, Hd4. clear Hd3 Hd4.
  destruct (adjectiveToNumber overallShape) as [sides|] eqn:Hsides;
    [destruct (Hq sides eq_refl) as (Hq1 & Hq2 & Hq3)|cbn [sidesAre]];
    clear Hq;
    repeat match goal with
           | |- context [if ?c then _ else _] => destruct c eqn:?
           end.
  all: try (eexists; split; [reflexivity|];
            first [apply shape_unrecognized | apply shape_angles]).
  all: repeat match goal with
              | H : (_ && _) = true |- _ =>
                  apply andb_prop in H; destruct H
              | H : (_ =? _)%Z = true |- _ => apply Z.eqb_eq in H
              end.
  all: try match goal with
           | |- exists r, anglesAndDirections ?a ?b (repeat ?l ?k) = Some r /\ _ =>
               let v := eval vm_compute in (repeat l k) in
               match v with
               | Some ?d =>
                   exists (Items [anglesItem a b; directionsItem d]); split;
                   [apply anglesAndDirections_some; vm_compute; reflexivity
                   |apply shape_directions; subst; reflexivity]
               end
           end.
  all: repeat match goal with
              | H : true = true -> _ |- _ => specialize (H eq_refl)
              | H : false = true -> _ |- _ => clear H
              end.
  all: eexists; (split; [reflexivity|]).
  all: try (apply shape_directions;
            Z.to_euclidean_division_equations; lia).
  all: destruct (Z.eq_dec (n mod 4) 0)%Z as [Hmod|Hmod];
    [apply shape_directions; Z.to_euclidean_division_equations; lia|].
  all: apply shape_too_many_directions;
    [Z.to_euclidean_division_equations; lia
    |Z.to_euclidean_division_equations; lia
    |assumption|assumption
    |rewrite Hsides; f_equal; Z.to_euclidean_division_equations; lia].
Qed.

Lemma overallShapeToScript_returns (overallShape patsPrefix : string)
  (leafShape : option string) :
  exists r, overallShapeToScript overallShape patsPrefix leafShape = Some r.
Proof.
  destruct (greekPrefixToNumber patsPrefix) as [n|] eqn:Hp.
  - destruct (overallShapeToScript_cases overallShape patsPrefix leafShape
                n Hp) as (r & Hr & _). now exists r.
  - unfold overallShapeToScript. rewrite Hp. eauto.
Qed.

Lemma validateScript_kind (items : list ScriptItem) :
  validateScript items = Null
  \/ exists e, validateScript items = Problem e.
Proof.
  unfold validateScript.
  destruct (withField numPats items), (withField pats items); cbv zeta;
    repeat match goal with
           | |- context [if ?c then _ else _] => destruct c
           end; unfold countsDiffer; eauto.
Qed.

Lemma finishScript_validated (name : NamePieces) (info : InfoStorer) :
  snd (finishScript name info) = [] ->
  validateScript (fst (finishScript name info)) = Null.
Proof.
  unfold finishScript.
  set (info1 := match namePats name with Some _ => _ | None => _ end).
  set (info2 := match truthy (generator name) with
                | Some _ => _ | None => _ end).
  destruct (errors info2) as [|e es] eqn:He.
  - destruct (validateScript_kind (script info2)) as [Hv|[e Hv]];
      rewrite Hv; simpl; [intros _; exact Hv|].
    rewrite He. discriminate.
  - simpl. rewrite He. discriminate.
Qed.

(** X12: [namePiecesToScript] returns for every name (the loops that build
    the directions end), and a result without errors has passed
    [validateScript]: its script says how many pats there are, and the
    counts it gives through [numPats], [pats] and [directions] agree. *)
Theorem namePiecesToScript_validated (name : NamePieces) :
  exists items problems,
    namePiecesToScript name = Some (items, problems)
    /\ (problems = [] ->
        validateScript items = Null
        /\ (withField numPats items <> [] \/ withField pats items <> [])).
Proof.
  assert (G : forall info,
             exists items problems,
               Some (finishScript name info) = Some (items, problems)
               /\ (problems = [] ->
                   validateScript items = Null
                   /\ (withField numPats items <> []
                       \/ withField pats items <> []))).
  { intros info. exists (fst (finishScript name info)),
                        (snd (finishScript name info)).
    split; [now destruct (finishScript name info)|].
    intros Hnone. pose proof (finishScript_validated name info Hnone) as Hv.
    split; [exact Hv|].
    unfold validateScript in Hv.
    destruct (withField numPats (fst (finishScript name info)));
      [|left; discriminate].
    destruct (withField pats (fst (finishScript name info)));
      [discriminate|right; discriminate]. }
  unfold namePiecesToScript. cbv zeta.
  destruct (truthy (overallShape name)) as [shape|]; [|apply G].
  destruct (truthy (patsPrefix name)) as [prefix|]; [|apply G].
  destruct (overallShapeToScript_returns shape prefix (leafShape name))
    as [r ->].
  apply G.
Qed.

(** X13: a generator takes the place of the pinch faces: when the name
    has a generating sequence, its pinch faces are not looked at, whatever
    they are. *)
Theorem generator_overrides_pinchFaces (name : NamePieces)
  (faces : option string) :
  truthy (generator name) <> None ->
  namePiecesToScript
    (mkNamePieces (overallShape name) (leafShape name) (patsPrefix name)
                  (namePats name) (generator name) faces)
  = namePiecesToScript name.
Proof.
  intros Hg. unfold namePiecesToScript, finishScript. simpl.
  destruct (truthy (generator name)); [reflexivity|contradiction].
Qed.

Lemma finishScript_warning (name : NamePieces) (info : InfoStorer)
  (faces : string) (n : Z) :
  truthy (generator name) = None ->
  truthy (pinchFaces name) = Some faces ->
  greekPrefixToNumber faces = Some n ->
  (6 <= n)%Z ->
  snd (finishScript name info)
  = errors info ++ [multiplePossibilities faces].
Proof.
  intros Hg Hf Hn Hle. unfold finishScript. rewrite Hg, Hf.
  unfold pinchFacesToScript. rewrite Hn.
  destruct (n <? 2)%Z eqn:E2; [lia|].
  destruct (n =? 2)%Z eqn:E3; [lia|].
  destruct (n <? 6)%Z eqn:E4; [lia|].
  assert (Hlast : forall i : InfoStorer,
             errors i <> [] ->
             snd (let info0 := match errors i with
                               | [] => add (validateScript (script i)) i
                               | _ :: _ => i
                               end in (script info0, errors info0))
             = errors i).
  { intros i Hi. destruct (errors i) eqn:E; [contradiction|].
    simpl. exact E. }
  destruct (n =? 6)%Z; destruct (namePats name); simpl add.
  all: rewrite Hlast; [reflexivity|simpl; now destruct (errors info)].
Qed.

(** X14: the warning about the number of pinch faces counts as an error:
    for six pinch faces or more (and no generator) the errors end with the
    warning, and the final validation is not run -- a name that gives
    nothing but such pinch faces is not told that the number of pats is
    missing. *)
Theorem pinchFaces_warning_ends_errors (name : NamePieces) (faces : string)
  (n : Z) :
  truthy (generator name) = None ->
  truthy (pinchFaces name) = Some faces ->
  greekPrefixToNumber faces = Some n ->
  (6 <= n)%Z ->
  (exists items earlier,
      namePiecesToScript name
      = Some (items, earlier ++ [multiplePossibilities faces]))
  /\ namePiecesToScript
       (mkNamePieces None None None None None (Some faces))
     = Some ([flexesItem (if (n =? 6)%Z then "P* P* P+ > P P*"
                          else repeatString "P*" (Z.to_nat (n - 2)))],
             [multiplePossibilities faces])
  /\ validateScript
       [flexesItem (if (n =? 6)%Z then "P* P* P+ > P P*"
                    else repeatString "P*" (Z.to_nat (n - 2)))]
     = Problem (mkNamePiecesError MissingNumberOfPats None).
Proof.
  intros Hg Hf Hn Hle. repeat apply conj.
  - assert (G : forall info,
               exists items earlier,
                 Some (finishScript name info)
                 = Some (items, earlier ++ [multiplePossibilities faces])).
    { intros info. exists (fst (finishScript name info)), (errors info).
      rewrite <- (finishScript_warning name info faces n Hg Hf Hn Hle).
      now destruct (finishScript name info). }
    unfold namePiecesToScript. cbv zeta.
    destruct (truthy (overallShape name)) as [shape|]; [|apply G].
    destruct (truthy (patsPrefix name)) as [prefix|]; [|apply G].
    destruct (overallShapeToScript_returns shape prefix (leafShape name))
      as [r ->].
    apply G.
  - assert (Hfaces : truthy (Some faces) = Some faces).
    { simpl. destruct (String.eqb_spec faces ""); [subst|reflexivity].
      discriminate. }
    unfold namePiecesToScript, finishScript. simpl truthy at 1 2 3.
    cbv iota beta zeta.
    cbn [namePats generator pinchFaces overallShape patsPrefix leafShape].
    rewrite Hfaces. simpl (truthy None). cbv iota.
    unfold pinchFacesToScript. rewrite Hn.
    destruct (n <? 2)%Z eqn:E2; [lia|].
    destruct (n =? 2)%Z eqn:E3; [lia|].
    destruct (n <? 6)%Z eqn:E4; [lia|].
    destruct (n =? 6)%Z; reflexivity.
  - destruct (n =? 6)%Z; reflexivity.
Qed.

(** An item that says nothing about the number of pats. *)
Lemma withField_none {A : Type} (field : ScriptItem -> option A)
  (items : list ScriptItem) :
  Forall (fun item => field item = None) items -> withField field items = [].
Proof.
  induction 1 as [|item items Hitem _ IH]; [reflexivity|].
  unfold withField in *. simpl. now rewrite Hitem.
Qed.

Lemma leafShapeToScript_no_count (shape : string) (prefix : option string)
  (info : InfoStorer) :
  Forall (fun item => numPats item = None /\ pats item = None)
         (script info) ->
  Forall (fun item => numPats item = None /\ pats item = None)
         (script (add (leafShapeToScript shape prefix) info)).
Proof.
  intros Hinfo.
  assert (Hitem : forall a b,
             Forall (fun item => numPats item = None /\ pats item = None)
                    (script (add (Item (anglesItem a b)) info))).
  { intros a b. simpl. apply Forall_app. split; [exact Hinfo|].
    repeat constructor. }
  unfold leafShapeToScript. cbv zeta.
  repeat match goal with
         | |- context [match ?c with _ => _ end] => destruct c
         end; try apply Hitem; try exact Hinfo.
  all: simpl; apply Forall_app; split; [exact Hinfo|repeat constructor].
Qed.

Lemma add_errors_grow (item : Addable) (info : InfoStorer) :
  exists more, errors (add item info) = errors info ++ more.
Proof.
  destruct item as [| |e|]; simpl;
    first [exists []; now rewrite app_nil_r | exists [e]; reflexivity].
Qed.

Lemma finishScript_errors_grow (name : NamePieces) (info : InfoStorer) :
  exists more, snd (finishScript name info) = errors info ++ more.
Proof.
  unfold finishScript.
  set (info1 := match namePats name with Some _ => _ | None => _ end).
  assert (H1 : errors info1 = errors info)
    by (unfold info1; now destruct (namePats name)).
  set (info2 := match truthy (generator name) with
                | Some _ => _ | None => _ end).
  assert (H2 : exists more, errors info2 = errors info ++ more).
  { unfold info2. rewrite <- H1.
    destruct (truthy (generator name)); [exists []; simpl; now rewrite app_nil_r|].
    destruct (truthy (pinchFaces name)) as [faces|];
      [|exists []; now rewrite app_nil_r].
    destruct (pinchFacesToScript faces) as [item error].
    destruct (add_errors_grow item info1) as [m1 E1].
    destruct (add_errors_grow error (add item info1)) as [m2 E2].
    exists (m1 ++ m2). now rewrite E2, E1, app_assoc. }
  destruct H2 as [more H2].
  destruct (errors info2) as [|e es] eqn:He.
  - destruct (add_errors_grow (validateScript (script info2)) info2)
      as [m E].
    simpl. rewrite E, He, H2. exists (more ++ m). now rewrite app_assoc.
  - simpl. rewrite He, H2. now exists more.
Qed.

Lemma pinchFacesToScript_flexes (faces : string) :
  fst (pinchFacesToScript faces) = Null
  \/ exists flexes, fst (pinchFacesToScript faces) = Item (flexesItem flexes).
Proof.
  unfold pinchFacesToScript.
  destruct (greekPrefixToNumber faces) as [n|]; [|now left].
  destruct (n <? 2)%Z; [now left|].
  destruct (n =? 2)%Z; [now left|].
  destruct (n <? 6)%Z; [right; eauto|].
  destruct (n =? 6)%Z; right; eauto.
Qed.

Lemma add_error_script (item : Addable) (info : InfoStorer) :
  isNamePiecesError item = true \/ item = Null ->
  script (add item info) = script info.
Proof. intros [H| ->]; [now destruct item|reflexivity]. Qed.

Lemma pinchFacesToScript_error (faces : string) :
  isNamePiecesError (snd (pinchFacesToScript faces)) = true
  \/ snd (pinchFacesToScript faces) = Null.
Proof.
  unfold pinchFacesToScript.
  destruct (greekPrefixToNumber faces) as [n|]; [|now left].
  destruct (n <? 2)%Z; [now left|].
  destruct (n =? 2)%Z; [now right|].
  destruct (n <? 6)%Z; [now right|].
  destruct (n =? 6)%Z; now left.
Qed.

Lemma finishScript_no_count (name : NamePieces) (info : InfoStorer) :
  namePats name = None ->
  Forall (fun item => numPats item = None /\ pats item = None)
         (script info) ->
  snd (finishScript name info) <> [].
Proof.
  intros Hpats Hinfo. unfold finishScript. rewrite Hpats.
  set (info2 := match truthy (generator name) with
                | Some _ => _ | None => _ end).
  assert (H2 : Forall (fun item => numPats item = None /\ pats item = None)
                      (script info2)).
  { unfold info2.
    destruct (truthy (generator name));
      [simpl; apply Forall_app; split; [exact Hinfo|repeat constructor]|].
    destruct (truthy (pinchFaces name)) as [faces|]; [|exact Hinfo].
    pose proof (pinchFacesToScript_flexes faces) as Hs.
    pose proof (pinchFacesToScript_error faces) as He.
    destruct (pinchFacesToScript faces) as [item error]. simpl in Hs, He.
    rewrite (add_error_script _ _ He).
    destruct Hs as [-> |[flexes ->]]; [exact Hinfo|].
    simpl. apply Forall_app. split; [exact Hinfo|repeat constructor]. }
  destruct (errors info2) as [|e es] eqn:He; [|simpl; now rewrite He].
  unfold validateScript.
  rewrite (withField_none numPats), (withField_none pats).
  - simpl. rewrite He. discriminate.
  - eapply List.Forall_impl; [|exact H2]. now intros item [_ ?].
  - eapply List.Forall_impl; [|exact H2]. now intros item [? _].
Qed.

(** X15: a name that gives no number of pats -- no pats, and no prefix or
    one that [greekPrefixToNumber] does not know -- always comes back with
    an error. *)
Theorem name_without_count_is_an_error (name : NamePieces) :
  namePats name = None ->
  match truthy (patsPrefix name) with
  | Some prefix => greekPrefixToNumber prefix = None
  | None => True
  end ->
  exists items problems,
    namePiecesToScript name = Some (items, problems) /\ problems <> [].
Proof.
  intros Hpats Hprefix.
  assert (G : forall info,
             snd (finishScript name info) <> [] ->
             exists items problems,
               Some (finishScript name info) = Some (items, problems)
               /\ problems <> []).
  { intros info Hne. exists (fst (finishScript name info)),
                            (snd (finishScript name info)).
    split; [now destruct (finishScript name info)|exact Hne]. }
  assert (Gerr : forall info,
             errors info <> [] -> snd (finishScript name info) <> []).
  { intros info Hne. destruct (finishScript_errors_grow name info)
      as [more ->]. now destruct (errors info). }
  unfold namePiecesToScript. cbv zeta.
  destruct (truthy (patsPrefix name)) as [prefix|].
  - (* an unknown prefix is reported at once *)
    assert (Herr : forall info, errors (add (patsPrefixToScript prefix) info)
                                <> []).
    { intros info. unfold patsPrefixToScript. rewrite Hprefix. simpl.
      now destruct (errors info). }
    assert (Hleaf : forall item info,
               errors info <> [] -> errors (add item info) <> []).
    { intros [| |e|] info Hne; simpl; try exact Hne.
      now destruct (errors info). }
    destruct (truthy (overallShape name)) as [shape|].
    + destruct (overallShapeToScript_returns shape prefix (leafShape name))
        as [r ->].
      apply G, Gerr, Hleaf.
      destruct (truthy (leafShape name)); [apply Hleaf|]; apply Herr.
    + apply G, Gerr.
      destruct (truthy (leafShape name)); [apply Hleaf|]; apply Herr.
  - (* nothing in the script counts the pats *)
    assert (Hfinish : exists items problems,
               Some (finishScript name
                       match truthy (leafShape name) with
                       | Some shape =>
                           add (leafShapeToScript shape (patsPrefix name))
                               newInfoStorer
                       | None => newInfoStorer
                       end) = Some (items, problems) /\ problems <> []).
    { apply G, finishScript_no_count; [exact Hpats|].
      destruct (truthy (leafShape name));
        [apply leafShapeToScript_no_count|]; constructor. }
    destruct (truthy (overallShape name)); exact Hfinish.
Qed.

(** X16: the directions that [overallShapeToScript] gives have one entry
    for each pat, except for a ring of isosceles leaves whose number of
    pats is not a multiple of four: there the strip of directions is two
    entries too long. *)
Theorem overallShapeToScript_directions (overallShape patsPrefix : string)
  (leafShape : option string) (n : Z) (items : list ScriptItem)
  (item : ScriptItem) (d : list bool) :
  greekPrefixToNumber patsPrefix = Some n ->
  overallShapeToScript overallShape patsPrefix leafShape
  = Some (Items items) ->
  In item items ->
  directions item = Some d ->
  Z.of_nat (length d) = n
  \/ (Z.of_nat (length d) = (n + 2)%Z
      /\ (n mod 4 = 2)%Z
      /\ endsWith overallShape "ring" = true
      /\ truthyStartsWith leafShape "isosceles" = true
      /\ adjectiveToNumber overallShape = Some (n / 2)%Z).
Proof.
  intros Hp Hr Hin Hd.
  destruct (overallShapeToScript_cases overallShape patsPrefix leafShape
              n Hp) as (r & Hr' & Hshape).
  rewrite Hr in Hr'. injection Hr' as <-.
  inversion Hshape; subst; simpl in Hin.
  - destruct Hin as [<-|[]]. discriminate.
  - destruct Hin as [<-|[<-|[]]]; [discriminate|].
    injection Hd as <-. now left.
  - destruct Hin as [<-|[<-|[]]]; [discriminate|].
    injection Hd as <-. right. auto.
Qed.

(** X17: for a ring of isosceles leaves with 14, 18 or 22 pats (a
    heptagonal, enneagonal or hendecagonal ring) the script gets two
    directions too many, and [namePiecesToScript] reports that the counts
    differ. *)
Theorem isosceles_ring_counts_differ (shape prefix leaf : string) (n : Z) :
  greekPrefixToNumber prefix = Some n ->
  (n mod 4 = 2)%Z ->
  (12 <= n)%Z ->
  endsWith shape "ring" = true ->
  adjectiveToNumber shape = Some (n / 2)%Z ->
  leaf = "isosceles" \/ leaf = "isosceles triangle" ->
  option_map snd
    (namePiecesToScript
       (mkNamePieces (Some shape) (Some leaf) (Some prefix) None None None))
  = Some [mkNamePiecesError CountsDiffer None].
Proof.
  intros Hp Hmod Hle Hends Hsides Hleaf.
  assert (Hshape : String.eqb shape "" = false).
  { destruct (String.eqb_spec shape ""); [subst; discriminate|reflexivity]. }
  assert (Hprefix : String.eqb prefix "" = false).
  { destruct (String.eqb_spec prefix ""); [subst; discriminate|reflexivity]. }
  assert (Hstar : String.eqb shape "star" = false).
  { destruct (String.eqb_spec shape "star"); [subst; discriminate|reflexivity]. }
  pose proof (greekPrefixToNumber_numbers _ _ Hp) as Hn.
  unfold namePiecesToScript, finishScript, patsPrefixToScript,
    leafShapeToScript, overallShapeToScript, truthyStartsWith, truthy.
  cbn [overallShape leafShape patsPrefix namePats generator pinchFaces].
  rewrite Hshape, Hprefix, Hp, Hsides, Hends, Hstar.
  clear Hp Hsides Hshape Hprefix Hstar Hends.
  revert Hmod Hle. each_number Hn; intros Hmod Hle;
    try (vm_compute in Hmod; discriminate Hmod);
    try (vm_compute in Hle; now contradiction Hle).
  all: destruct Hleaf as [-> | ->]; vm_compute; reflexivity.
Qed.

(** Only [validateScript] says that the counts differ. *)
Lemma add_keeps_kinds (item : Addable) (info : InfoStorer) :
  (forall e, item = Problem e -> nameError e <> CountsDiffer) ->
  Forall (fun e => nameError e <> CountsDiffer) (errors info) ->
  Forall (fun e => nameError e <> CountsDiffer) (errors (add item info)).
Proof.
  intros Hitem Hinfo. destruct item as [| |e|]; simpl; try exact Hinfo.
  apply Forall_app. split; [exact Hinfo|]. constructor; [|constructor].
  now apply Hitem.
Qed.

Lemma patsPrefixToScript_kind (prefix : string) (e : NamePiecesError) :
  patsPrefixToScript prefix = Problem e -> nameError e <> CountsDiffer.
Proof.
  unfold patsPrefixToScript.
  destruct (greekPrefixToNumber prefix); intros [= <-]. discriminate.
Qed.

Lemma leafShapeToScript_kind (shape : string) (prefix : option string)
  (e : NamePiecesError) :
  leafShapeToScript shape prefix = Problem e -> nameError e <> CountsDiffer.
Proof.
  unfold leafShapeToScript. cbv zeta.
  repeat match goal with
         | |- context [match ?c with _ => _ end] => destruct c
         end; intros [= <-]; discriminate.
Qed.

Lemma overallShapeToScript_kind (shape prefix : string)
  (leaf : option string) (e : NamePiecesError) :
  overallShapeToScript shape prefix leaf = Some (Problem e) ->
  nameError e <> CountsDiffer.
Proof.
  destruct (greekPrefixToNumber prefix) as [n|] eqn:Hp.
  - destruct (overallShapeToScript_cases shape prefix leaf n Hp)
      as (r & -> & Hshape).
    intros [= ->]. inversion Hshape. discriminate.
  - unfold overallShapeToScript. rewrite Hp. intros [= <-]. discriminate.
Qed.

Lemma pinchFacesToScript_kind (faces : string) (e : NamePiecesError) :
  fst (pinchFacesToScript faces) = Problem e
  \/ snd (pinchFacesToScript faces) = Problem e ->
  nameError e <> CountsDiffer.
Proof.
  unfold pinchFacesToScript.
  repeat match goal with
         | |- context [match ?c with _ => _ end] => destruct c
         end; simpl; intros [H|H]; try discriminate H;
    injection H as <-; discriminate.
Qed.

Lemma finishScript_counts_differ (name : NamePieces) (info : InfoStorer)
  (e : NamePiecesError) :
  Forall (fun e => nameError e <> CountsDiffer) (errors info) ->
  In e (snd (finishScript name info)) ->
  nameError e = CountsDiffer ->
  snd (finishScript name info) = [e]
  /\ e = mkNamePiecesError CountsDiffer None.
Proof.
  intros Hinfo. unfold finishScript.
  set (info1 := match namePats name with Some _ => _ | None => _ end).
  assert (H1 : Forall (fun e => nameError e <> CountsDiffer) (errors info1))
    by (unfold info1; now destruct (namePats name)).
  set (info2 := match truthy (generator name) with
                | Some _ => _ | None => _ end).
  assert (H2 : Forall (fun e => nameError e <> CountsDiffer) (errors info2)).
  { unfold info2. destruct (truthy (generator name)); [exact H1|].
    destruct (truthy (pinchFaces name)) as [faces|]; [|exact H1].
    pose proof (pinchFacesToScript_kind faces) as Hk.
    destruct (pinchFacesToScript faces) as [item error]. simpl in Hk.
    apply add_keeps_kinds; [intros e' ->; apply Hk; now right|].
    apply add_keeps_kinds; [intros e' ->; apply Hk; now left|exact H1]. }
  destruct (errors info2) as [|e2 es] eqn:He.
  - unfold validateScript.
    destruct (withField numPats (script info2)),
             (withField pats (script info2)); cbv zeta;
      repeat match goal with
             | |- context [if ?c then _ else _] => destruct c
             end; unfold countsDiffer; simpl; rewrite He; simpl;
      intros Hin Hkind; try contradiction;
      destruct Hin as [<-|[]]; try discriminate Hkind; auto.
  - simpl. rewrite He. intros Hin Hkind.
    rewrite List.Forall_forall in H2. now apply H2 in Hin.
Qed.

(** X19: that the counts differ is only ever reported alone: it is what
    the final validation says, and the validation is run only when nothing
    else was wrong. *)
Theorem counts_differ_is_reported_alone (name : NamePieces)
  (items : list ScriptItem) (problems : list NamePiecesError)
  (e : NamePiecesError) :
  namePiecesToScript name = Some (items, problems) ->
  In e problems ->
  nameError e = CountsDiffer ->
  problems = [e] /\ e = mkNamePiecesError CountsDiffer None.
Proof.
  assert (G : forall info,
             Forall (fun e => nameError e <> CountsDiffer) (errors info) ->
             Some (finishScript name info) = Some (items, problems) ->
             In e problems -> nameError e = CountsDiffer ->
             problems = [e] /\ e = mkNamePiecesError CountsDiffer None).
  { intros info Hinfo Hf Hin Hkind.
    assert (Hs : snd (finishScript name info) = problems).
    { change problems with (snd (items, problems)). f_equal. congruence. }
    pose proof (finishScript_counts_differ name info e Hinfo) as Hc.
    rewrite Hs in Hc. now apply Hc. }
  assert (H0 : Forall (fun e => nameError e <> CountsDiffer)
                      (errors newInfoStorer)) by constructor.
  assert (H1 : Forall (fun e => nameError e <> CountsDiffer)
                 (errors match truthy (patsPrefix name) with
                         | Some prefix =>
                             add (patsPrefixToScript prefix) newInfoStorer
                         | None => newInfoStorer
                         end)).
  { destruct (truthy (patsPrefix name)) as [prefix|]; [|exact H0].
    apply add_keeps_kinds; [apply patsPrefixToScript_kind|exact H0]. }
  unfold namePiecesToScript. cbv zeta.
  set (info1 := match truthy (patsPrefix name) with
                | Some _ => _ | None => _ end) in *.
  assert (H2 : Forall (fun e => nameError e <> CountsDiffer)
                 (errors match truthy (leafShape name) with
                         | Some shape =>
                             add (leafShapeToScript shape (patsPrefix name))
                                 info1
                         | None => info1
                         end)).
  { destruct (truthy (leafShape name)) as [shape|]; [|exact H1].
    apply add_keeps_kinds; [apply leafShapeToScript_kind|exact H1]. }
  set (info2 := match truthy (leafShape name) with
                | Some _ => _ | None => _ end) in *.
  destruct (truthy (overallShape name)) as [shape|]; [|now apply G].
  destruct (truthy (patsPrefix name)) as [prefix|]; [|now apply G].
  destruct (overallShapeToScript shape prefix (leafShape name))
    as [item|] eqn:Hshape; [|discriminate].
  apply G. apply add_keeps_kinds; [|exact H2].
  intros e' ->. eapply overallShapeToScript_kind, Hshape.
Qed.

End NameScriptProps.

Section NameScriptExamples.
Import NameScript.

(** [greekPrefixToNumber_range] at work: "dodeca" is 12. *)
Lemma greekPrefixToNumber_range_witness :
  (2 <= 12 <= 24)%Z
  /\ forall other, greekPrefixToNumber other = Some 12%Z -> other = "dodeca".
Proof.
  apply (greekPrefixToNumber_range "dodeca" 12). reflexivity.
Defined.

(** [generator_overrides_pinchFaces] at work: a hexaflexagon with the
    generator "P*" and three pinch faces, and without the pinch faces. *)
Lemma generator_overrides_pinchFaces_witness :
  namePiecesToScript
    (mkNamePieces None None (Some "hexa") None (Some "P*") None)
  = namePiecesToScript
      (mkNamePieces None None (Some "hexa") None (Some "P*") (Some "tri")).
Proof.
  apply (generator_overrides_pinchFaces
           (mkNamePieces None None (Some "hexa") None (Some "P*")
                         (Some "tri")) None).
  discriminate.
Defined.

(** [pinchFaces_warning_ends_errors] at work: six pinch faces and nothing
    else. *)
Lemma pinchFaces_warning_ends_errors_witness :
  namePiecesToScript (mkNamePieces None None None None None (Some "hexa"))
  = Some ([flexesItem "P* P* P+ > P P*"], [multiplePossibilities "hexa"]).
Proof.
  apply (pinchFaces_warning_ends_errors
           (mkNamePieces None None None None None (Some "hexa")) "hexa" 6);
    [reflexivity|reflexivity|reflexivity|lia].
Defined.

(** [name_without_count_is_an_error] at work: a name with nothing in it,
    and one with a prefix that is not in the table. *)
Lemma name_without_count_is_an_error_witness :
  (exists items problems,
      namePiecesToScript (mkNamePieces None None None None None None)
      = Some (items, problems) /\ problems <> [])
  /\ (exists items problems,
         namePiecesToScript
           (mkNamePieces (Some "star") None (Some "kilo") None None None)
         = Some (items, problems) /\ problems <> []).
Proof.
  split.
  - apply (name_without_count_is_an_error
             (mkNamePieces None None None None None None));
      [reflexivity|exact I].
  - apply (name_without_count_is_an_error
             (mkNamePieces (Some "star") None (Some "kilo") None None None));
      reflexivity.
Defined.

(** [overallShapeToScript_directions] at work: the hexagonal silver
    dodecaflexagon has twelve directions. *)
Lemma overallShapeToScript_directions_witness :
  Z.of_nat (length [false; true; true; false; true; true;
                    false; true; true; false; true; true]) = 12%Z
  \/ (Z.of_nat (length [false; true; true; false; true; true;
                        false; true; true; false; true; true])
      = (12 + 2)%Z
      /\ (12 mod 4 = 2)%Z
      /\ endsWith "hexagonal" "ring" = true
      /\ truthyStartsWith (Some "silver") "isosceles" = true
      /\ adjectiveToNumber "hexagonal" = Some (12 / 2)%Z).
Proof.
  apply (overallShapeToScript_directions "hexagonal" "dodeca"
           (Some "silver") 12
           [anglesItem 45 90;
            directionsItem [false; true; true; false; true; true;
                            false; true; true; false; true; true]]
           (directionsItem [false; true; true; false; true; true;
                            false; true; true; false; true; true])).
  - reflexivity.
  - vm_compute. reflexivity.
  - right. left. reflexivity.
  - reflexivity.
Defined.

(** [isosceles_ring_counts_differ] at work: the heptagonal ring isosceles
    tetradecaflexagon. *)
Lemma isosceles_ring_counts_differ_witness :
  option_map snd
    (namePiecesToScript
       (mkNamePieces (Some "heptagonal ring") (Some "isosceles")
                     (Some "tetradeca") None None None))
  = Some [mkNamePiecesError CountsDiffer None].
Proof.
  apply (isosceles_ring_counts_differ "heptagonal ring" "tetradeca"
           "isosceles" 14);
    [reflexivity|reflexivity|lia|reflexivity|reflexivity|now left].
Defined.

(** [sides_tests_are_exact] at work: the octagonal ring
    dodecaflexagon. *)
Lemma sides_tests_are_exact_witness :
  (sidesAre (Some 8%Z) 8 (2 * toNumber 12 / 3)%float = true
   <-> (8 <= 8 /\ 3 * 8 = 2 * 12)%Z)
  /\ (sidesAre (Some 8%Z) 3 (toNumber 12 / 4)%float = true
      <-> (3 <= 8 /\ 4 * 8 = 12)%Z)
  /\ (sidesAre (Some 8%Z) 6 (toNumber 12 / 2)%float = true
      <-> (6 <= 8 /\ 2 * 8 = 12)%Z)
  /\ (sidesAre (Some 8%Z) 3 (toNumber 12 / 2)%float = true
      <-> (3 <= 8 /\ 2 * 8 = 12)%Z).
Proof.
  apply (sides_tests_are_exact "octagonal ring" "dodeca" 8 12);
    reflexivity.
Defined.

(** [counts_differ_is_reported_alone] at work: the heptagonal ring
    isosceles tetradecaflexagon again. *)
Lemma counts_differ_is_reported_alone_witness :
  [mkNamePiecesError CountsDiffer None] = [mkNamePiecesError CountsDiffer None]
  /\ mkNamePiecesError CountsDiffer None = mkNamePiecesError CountsDiffer None.
Proof.
  apply (counts_differ_is_reported_alone
           (mkNamePieces (Some "heptagonal ring") (Some "isosceles")
                         (Some "tetradeca") None None None)
           match namePiecesToScript
                   (mkNamePieces (Some "heptagonal ring") (Some "isosceles")
                                 (Some "tetradeca") None None None) with
           | Some (items, _) => items
           | None => []
           end
           [mkNamePiecesError CountsDiffer None]
           (mkNamePiecesError CountsDiffer None)).
  - vm_compute. reflexivity.
  - now left.
  - reflexivity.
Defined.

End NameScriptExamples.
